(** * The self-update supervisor of [self_upgrading_client.py]

    A shallow embedding of the update core of the client: the content
    fingerprinter ([get_checksum]), the candidate validator
    ([is_valid_python]), the failed-update ledger ([load_failed_update],
    [save_failed_update]), the notifier ([send_email]) and one iteration of
    the polling loop, together with the properties the design document
    states about them.

    The file system, the remote repository and every fallible library call
    are part of an explicit [World]; Python exceptions, [continue] and
    [os.execv] are control signals of a small state/error/trace monad. *)

From Stdlib Require Import Ascii.
From stdpp Require Import base gmap strings list pretty.

(** ** Python values and exceptions *)

(** The exception classes the source dispatches on in its [except] clauses;
    every other subclass of [Exception] is [OtherException]. *)
Inductive exn_kind :=
  | FileNotFoundError
  | SyntaxError
  | JSONDecodeError
  | GitCommandError
  | SMTPAuthenticationError
  | OtherException.

Record exn := Exn { exn_kind_of : exn_kind; exn_msg : string }.

(** What [json.load] builds.  [JNull] is Python's [None]; a [JObject] holds
    the items of the resulting [dict]. *)
#[warnings="-register-all"]
Inductive json :=
  | JNull
  | JBool (b : bool)
  | JNumber (repr : string)
  | JString (s : string)
  | JArray (items : list json)
  | JObject (fields : list (string * json)).

(** The library functions the client calls: [hashlib.sha256(..).hexdigest()],
    [ast.parse] ([None] when the source parses, otherwise the exception it
    raises), [json.loads] and [json.dumps]. *)
Class PyLib := {
  sha256_hexdigest : string → string;
  ast_parse : string → option exn;
  json_loads : string → json + exn;
  json_dumps : json → string
}.

(** ** The world outside the process *)

Inductive mode := Bin | Text.

(** The fallible operations of one iteration. *)
Inductive op :=
  | OpPull
  | OpRead (path : string) (m : mode)
  | OpWrite (path : string)
  | OpCopy (src dst : string)
  | OpExec (path : string)
  | OpSmtp (subject : string) (attempt : nat).

(** How an operation fails: before it touched anything, or, for an operation
    that writes a file, after the destination was opened (and so truncated)
    and [n] bytes reached it. *)
Inductive fault :=
  | Fails (e : exn)
  | FailsAfter (n : nat) (e : exn).

Definition fault_exn (f : fault) : exn :=
  match f with Fails e | FailsAfter _ e => e end.

(** [files] maps a path to the bytes of the file, [remote] is the version of
    the client file the remote repository currently holds, and [oracle] tells
    which operations fail (disk full, permissions, network, decoding). *)
Record World := {
  files : gmap string string;
  remote : option string;
  oracle : op → option fault
}.

Inductive level := INFO | ERROR | CRITICAL.

(** What an observer sees of a run: log records, sleeps, and every fallible
    operation with the exception it raised, if any. *)
Inductive event :=
  | EvLog (l : level) (msg : string)
  | EvSleep (secs : nat)
  | EvIO (o : op) (raised : option exn)
  | EvLoopStop.

#[global] Instance exn_kind_eq_dec : EqDecision exn_kind.
Proof. solve_decision. Defined.
#[global] Instance exn_eq_dec : EqDecision exn.
Proof. solve_decision. Defined.
#[global] Instance mode_eq_dec : EqDecision mode.
Proof. solve_decision. Defined.
#[global] Instance op_eq_dec : EqDecision op.
Proof. solve_decision. Defined.
#[global] Instance level_eq_dec : EqDecision level.
Proof. solve_decision. Defined.
#[global] Instance event_eq_dec : EqDecision event.
Proof. solve_decision. Defined.

(** ** Configuration (lines 26-28, 142, 149, 173) *)

Definition CHECK_INTERVAL : nat := 60.
Definition FAILED_UPDATE_FILE : string := "failed_update.json".
Definition current_file : string := "self_upgrading_client.py".
Definition new_file : string := "repo/self_upgrading_client.py".
Definition backup : string := "self_upgrading_client_backup.py".

(** ** Control flow *)

(** The three [continue] statements of the loop. *)
Inductive continue_site := AtMissing | AtSkip | AtRejected.

(** Ways a computation ends other than by returning. *)
Inductive signal :=
  | SigRaise (e : exn)
  | SigContinue (c : continue_site)
  | SigExec.

Inductive result (A : Type) :=
  | Done (a : A)
  | Abrupt (s : signal).
Arguments Done {A} a.
Arguments Abrupt {A} s.

Definition M (A : Type) : Type := World → result A * World * list event.

Definition retM {A} (a : A) : M A := λ w, (Done a, w, []).

Definition bindM {A B} (f : A → M B) (m : M A) : M B := λ w,
  match m w with
  | (Done a, w1, t1) => let '(r, w2, t2) := f a w1 in (r, w2, t1 ++ t2)
  | (Abrupt s, w1, t1) => (Abrupt s, w1, t1)
  end.

#[global] Instance M_ret : MRet M := @retM.
#[global] Instance M_bind : MBind M := @bindM.

Definition raise {A} (e : exn) : M A := λ w, (Abrupt (SigRaise e), w, []).
Definition continue (c : continue_site) : M unit := λ w, (Abrupt (SigContinue c), w, []).

(** [try: m  except Exception as e: h e] *)
Definition try_except {A} (m : M A) (h : exn → M A) : M A := λ w,
  match m w with
  | (Abrupt (SigRaise e), w1, t1) => let '(r, w2, t2) := h e w1 in (r, w2, t1 ++ t2)
  | r => r
  end.

Definition log (l : level) (msg : string) : M unit := λ w, (Done tt, w, [EvLog l msg]).
Definition sleep (secs : nat) : M unit := λ w, (Done tt, w, [EvSleep secs]).
Definition loop_stop : M unit := λ w, (Done tt, w, [EvLoopStop]).

(** ** File-system and process primitives *)

Definition set_file (p : string) (data : string) (w : World) : World :=
  {| files := <[p := data]> (files w); remote := remote w; oracle := oracle w |}.

Definition not_found (p : string) : exn :=
  Exn FileNotFoundError ("[Errno 2] No such file or directory: '" +:+ p +:+ "'").

(** [os.path.exists] *)
Definition path_exists (p : string) : M bool := λ w,
  (Done (match files w !! p with Some _ => true | None => false end), w, []).

(** [open(p, mode).read()] *)
Definition read_file (p : string) (m : mode) : M string := λ w,
  match files w !! p with
  | None => (Abrupt (SigRaise (not_found p)), w, [EvIO (OpRead p m) (Some (not_found p))])
  | Some b =>
      match oracle w (OpRead p m) with
      | None => (Done b, w, [EvIO (OpRead p m) None])
      | Some f => (Abrupt (SigRaise (fault_exn f)), w, [EvIO (OpRead p m) (Some (fault_exn f))])
      end
  end.

(** [with open(p, "w") as f: f.write(data)]: opening truncates. *)
Definition write_file (p : string) (data : string) : M unit := λ w,
  match oracle w (OpWrite p) with
  | None => (Done tt, set_file p data w, [EvIO (OpWrite p) None])
  | Some (Fails e) => (Abrupt (SigRaise e), w, [EvIO (OpWrite p) (Some e)])
  | Some (FailsAfter n e) =>
      (Abrupt (SigRaise e), set_file p (String.substring 0 n data) w, [EvIO (OpWrite p) (Some e)])
  end.

(** [shutil.copy2(src, dst)] *)
Definition copy2 (src dst : string) : M unit := λ w,
  match files w !! src with
  | None => (Abrupt (SigRaise (not_found src)), w, [EvIO (OpCopy src dst) (Some (not_found src))])
  | Some b =>
      match oracle w (OpCopy src dst) with
      | None => (Done tt, set_file dst b w, [EvIO (OpCopy src dst) None])
      | Some (Fails e) => (Abrupt (SigRaise e), w, [EvIO (OpCopy src dst) (Some e)])
      | Some (FailsAfter n e) =>
          (Abrupt (SigRaise e), set_file dst (String.substring 0 n b) w, [EvIO (OpCopy src dst) (Some e)])
      end
  end.

(** [repo.remote().pull()]: the working copy of the client file becomes the
    remote's version. *)
Definition checkout (w : World) : World :=
  {| files := match remote w with
              | Some c => <[new_file := c]> (files w)
              | None => delete new_file (files w)
              end;
     remote := remote w; oracle := oracle w |}.

Definition pull : M unit := λ w,
  match oracle w OpPull with
  | None => (Done tt, checkout w, [EvIO OpPull None])
  | Some f => (Abrupt (SigRaise (fault_exn f)), w, [EvIO OpPull (Some (fault_exn f))])
  end.

(** [os.execv(sys.executable, [sys.executable, p])]: returns only by raising. *)
Definition execv (p : string) : M unit := λ w,
  match oracle w (OpExec p) with
  | None => (Abrupt SigExec, w, [EvIO (OpExec p) None])
  | Some f => (Abrupt (SigRaise (fault_exn f)), w, [EvIO (OpExec p) (Some (fault_exn f))])
  end.

(** One SMTP session: connect, [starttls], [login], [send_message]. *)
Definition smtp_send (subject : string) (attempt : nat) : M unit := λ w,
  match oracle w (OpSmtp subject attempt) with
  | None => (Done tt, w, [EvIO (OpSmtp subject attempt) None])
  | Some f => (Abrupt (SigRaise (fault_exn f)), w,
               [EvIO (OpSmtp subject attempt) (Some (fault_exn f))])
  end.

(** ** The client *)

Section Client.
Context `{PyLib}.

(** Lines 38-58. *)
Fixpoint send_email_loop (subject : string) (retries delay : nat) (attempts : list nat)
    : M unit :=
  match attempts with
  | [] => log ERROR "All email attempts failed."
  | attempt :: rest =>
      sent ← try_except (smtp_send subject attempt;; mret None) (λ e, mret (Some e));
      match sent with
      | None => log INFO ("Email sent: " +:+ subject)
      | Some e =>
          match exn_kind_of e with
          | SMTPAuthenticationError =>
              log ERROR "Email authentication failed. Check SMTP_USER and SMTP_PASS.";;
              log ERROR "All email attempts failed."
          | _ =>
              log ERROR ("Failed to send email (attempt " +:+ pretty (attempt + 1) +:+ "/"
                         +:+ pretty retries +:+ "): " +:+ exn_msg e);;
              (if bool_decide (attempt < retries - 1) then sleep delay else mret tt);;
              send_email_loop subject retries delay rest
          end
      end
  end.

Definition send_email_with (subject body : string) (retries delay : nat) : M unit :=
  send_email_loop subject retries delay (seq 0 retries).

Definition send_email (subject body : string) : M unit :=
  send_email_with subject body 3 5.

(** Lines 60-69. *)
Definition get_checksum (file_path : string) : M (option string) :=
  try_except
    (b ← read_file file_path Bin;
     mret (Some (sha256_hexdigest b)))
    (λ e, match exn_kind_of e with
          | FileNotFoundError =>
              log ERROR ("File not found: " +:+ file_path);;
              mret None
          | _ =>
              log ERROR ("Error reading file " +:+ file_path +:+ ": " +:+ exn_msg e);;
              mret None
          end).

Definition parse_source (src : string) : M unit :=
  match ast_parse src with
  | None => mret tt
  | Some e => raise e
  end.

(** Lines 71-82. *)
Definition is_valid_python (file_path : string) : M bool :=
  try_except
    (src ← read_file file_path Text;
     parse_source src;;
     log INFO ("Syntax check passed for " +:+ file_path);;
     mret true)
    (λ e, match exn_kind_of e with
          | SyntaxError =>
              log ERROR ("Invalid Python syntax in " +:+ file_path +:+ ": " +:+ exn_msg e);;
              mret false
          | _ =>
              log ERROR ("Error checking " +:+ file_path +:+ ": " +:+ exn_msg e);;
              mret false
          end).

Definition json_load (text : string) : M json :=
  match json_loads text with
  | inl v => mret v
  | inr e => raise e
  end.

(** [data.get(key)]: only a [dict] has the method. *)
Definition dict_get (key : string) (data : json) : M json :=
  match data with
  | JObject fields =>
      mret (match find (λ kv, String.eqb (fst kv) key) fields with
            | Some kv => snd kv
            | None => JNull
            end)
  | _ => raise (Exn OtherException "object has no attribute 'get'")
  end.

(** Lines 84-96. *)
Definition load_failed_update : M json :=
  try_except
    (present ← path_exists FAILED_UPDATE_FILE;
     if present : bool then
       text ← read_file FAILED_UPDATE_FILE Text;
       data ← json_load text;
       dict_get "checksum" data
     else (mret JNull : M json))
    (λ e, match exn_kind_of e with
          | JSONDecodeError =>
              log ERROR ("Invalid JSON in " +:+ FAILED_UPDATE_FILE +:+ ": " +:+ exn_msg e);;
              mret JNull
          | _ =>
              log ERROR ("Error loading failed update: " +:+ exn_msg e);;
              mret JNull
          end).

(** A checksum as Python holds it ([None] or a [str]), as JSON and as text. *)
Definition checksum_json (c : option string) : json :=
  match c with Some s => JString s | None => JNull end.

Definition py_str (c : option string) : string :=
  match c with Some s => s | None => "None" end.

Definition ledger_record (c : option string) : string :=
  json_dumps (JObject [("checksum", checksum_json c)]).

(** Lines 98-104. *)
Definition save_failed_update (checksum : option string) : M unit :=
  try_except
    (write_file FAILED_UPDATE_FILE (ledger_record checksum);;
     log INFO ("Marked update " +:+ py_str checksum +:+ " as failed"))
    (λ e, log ERROR ("Error saving failed update: " +:+ exn_msg e)).

(** ** The supervisor (lines 142-187) *)

(** The two module-level variables the loop reads. *)
Record state := {
  current_checksum : option string;
  failed_checksum : json
}.

(** Lines 142-144. *)
Definition startup : M state :=
  c ← get_checksum current_file;
  f ← load_failed_update;
  mret {| current_checksum := c; failed_checksum := f |}.

(** Truth value of [None] or a [str]. *)
Definition truthy (c : option string) : bool :=
  match c with
  | Some s => negb (String.eqb s "")
  | None => false
  end.

(** [a != b] on checksums. *)
Definition checksum_ne (a b : option string) : bool :=
  match a, b with
  | Some x, Some y => negb (String.eqb x y)
  | None, None => false
  | _, _ => true
  end.

(** [c == f] for a checksum and whatever the ledger file held. *)
Definition equals_failed (c : option string) (f : json) : bool :=
  match c, f with
  | Some x, JString y => String.eqb x y
  | None, JNull => true
  | _, _ => false
  end.

(** The update itself, lines 172-179: back up, overwrite, replace the
    process. *)
Definition apply_update : M unit :=
  running ← path_exists current_file;
  (if running : bool then copy2 current_file backup else mret tt);;
  copy2 new_file current_file;;
  log INFO "Restarting with new version...";;
  loop_stop;;
  execv current_file.

(** The body of the [try] block, lines 148-182. *)
Definition loop_body (st : state) : M state :=
  pull;;
  present ← path_exists new_file;
  (if negb present then
     log ERROR ("Update file not found in repo: " +:+ new_file);;
     sleep CHECK_INTERVAL;;
     continue AtMissing
   else mret tt);;
  new_checksum ← get_checksum new_file;
  (if truthy new_checksum && truthy (current_checksum st)
      && checksum_ne new_checksum (current_checksum st) then
     (if equals_failed new_checksum (failed_checksum st) then
        log INFO ("Skipping previously failed update " +:+ py_str new_checksum);;
        sleep CHECK_INTERVAL;;
        continue AtSkip
      else mret tt);;
     log INFO "Update detected!";;
     send_email "Client Update Started" "The client is updating to a new version.";;
     valid ← is_valid_python new_file;
     (if negb valid then
        log ERROR "New version has invalid syntax. Aborting update.";;
        send_email "Client Update Failed" "New version has invalid syntax. Update aborted.";;
        save_failed_update new_checksum;;
        sleep CHECK_INTERVAL;;
        continue AtRejected
      else mret tt);;
     apply_update
   else
     log INFO "No update needed.");;
  c ← get_checksum current_file;
  mret {| current_checksum := c; failed_checksum := failed_checksum st |}.

(** One pass of [while True], lines 147-187. *)
Definition iteration (st : state) : M state :=
  st' ← try_except (loop_body st)
          (λ e, match exn_kind_of e with
                | GitCommandError => log ERROR ("Git pull failed: " +:+ exn_msg e)
                | _ => log ERROR ("Unexpected error: " +:+ exn_msg e)
                end;;
                mret st);
  sleep CHECK_INTERVAL;;
  mret st'.

(** How a pass ended, in the vocabulary of the design: the comparison found
    nothing to do, the candidate was missing from the working copy, the
    candidate was the remembered failure, it was rejected by the validator,
    the process was replaced, or an exception reached the loop's handlers. *)
Inductive outcome :=
  | NoChange
  | Missing
  | Skipped
  | Rejected
  | Restarted
  | Errored (e : exn).

Definition outcome_of (r : result state) : outcome :=
  match r with
  | Done _ => NoChange
  | Abrupt (SigContinue AtMissing) => Missing
  | Abrupt (SigContinue AtSkip) => Skipped
  | Abrupt (SigContinue AtRejected) => Rejected
  | Abrupt SigExec => Restarted
  | Abrupt (SigRaise e) => Errored e
  end.

Record tick_result := {
  tick_outcome : outcome;
  tick_state : state;
  tick_world : World;
  tick_trace : list event
}.

(** One tick: how the [try] block ended, the variables as the next pass finds
    them, the world the pass leaves and what it did.  A [continue] keeps the
    variables; after [execv] the old image is gone. *)
Definition tick (st : state) (w : World) : tick_result :=
  let '(r, w', t) := iteration st w in
  {| tick_outcome := outcome_of (loop_body st w).1.1;
     tick_state := match r with Done st' => st' | Abrupt _ => st end;
     tick_world := w';
     tick_trace := t |}.

End Client.

(** ** Observations on a run *)

Definition trace_of {A} (m : M A) (w : World) : list event := (m w).2.

(** [ops_in P t]: every operation recorded in [t] satisfies [P]. *)
Definition ops_in (P : op → Prop) (t : list event) : Prop :=
  Forall (λ e, match e with EvIO o _ => P o | _ => True end) t.

Section Observations.
Context `{PyLib}.

(** The value of [get_checksum p]. *)
Definition fingerprint (w : World) (p : string) : option string :=
  match files w !! p with
  | Some b =>
      match oracle w (OpRead p Bin) with
      | None => Some (sha256_hexdigest b)
      | Some _ => None
      end
  | None => None
  end.

(** The value of [is_valid_python p]. *)
Definition verdict (w : World) (p : string) : bool :=
  match files w !! p with
  | Some src =>
      match oracle w (OpRead p Text) with
      | None => match ast_parse src with None => true | Some _ => false end
      | Some _ => false
      end
  | None => false
  end.

(** The value of [load_failed_update]. *)
Definition stored_failure (w : World) : json :=
  match files w !! FAILED_UPDATE_FILE with
  | None => JNull
  | Some text =>
      match oracle w (OpRead FAILED_UPDATE_FILE Text) with
      | Some _ => JNull
      | None =>
          match json_loads text with
          | inl (JObject fields) =>
              match find (λ kv, String.eqb (fst kv) "checksum") fields with
              | Some kv => snd kv
              | None => JNull
              end
          | _ => JNull
          end
      end
  end.

(** The world [save_failed_update c] leaves. *)
Definition saved (c : option string) (w : World) : World :=
  match oracle w (OpWrite FAILED_UPDATE_FILE) with
  | None => set_file FAILED_UPDATE_FILE (ledger_record c) w
  | Some (Fails _) => w
  | Some (FailsAfter n _) =>
      set_file FAILED_UPDATE_FILE (String.substring 0 n (ledger_record c)) w
  end.

(** The guard of line 156, on the world the pull left. *)
Definition update_due (st : state) (w : World) : bool :=
  truthy (fingerprint w new_file) && truthy (current_checksum st)
  && checksum_ne (fingerprint w new_file) (current_checksum st).

Definition handler_message (e : exn) : string :=
  match exn_kind_of e with
  | GitCommandError => "Git pull failed: " +:+ exn_msg e
  | _ => "Unexpected error: " +:+ exn_msg e
  end.

(** The variables as [startup] sets them. *)
Definition booted (w : World) : state :=
  {| current_checksum := fingerprint w current_file;
     failed_checksum := stored_failure w |}.

(** What a pass has done when it reaches line 172: pulled, fingerprinted the
    candidate, announced the update and validated the candidate. *)
Definition announced (w : World) : list event :=
  EvIO OpPull None :: trace_of (get_checksum new_file) w
    ++ EvLog INFO "Update detected!"
    :: trace_of (send_email "Client Update Started"
                   "The client is updating to a new version.") w
    ++ trace_of (is_valid_python new_file) w.

End Observations.

(** ** What the traces show *)

(** The validator was called on [p]: it opens [p] in text mode, and nothing
    else does. *)
Definition validator_invoked (p : string) (t : list event) : Prop :=
  ∃ r, EvIO (OpRead p Text) r ∈ t.

(** A notification was attempted. *)
Definition notified (t : list event) : Prop :=
  ∃ subject attempt r, EvIO (OpSmtp subject attempt) r ∈ t.

(** The ledger file was opened for writing. *)
Definition ledger_written (t : list event) : Prop :=
  ∃ r, EvIO (OpWrite FAILED_UPDATE_FILE) r ∈ t.

(** ** Counting in a trace *)

(** The SMTP sessions opened, in order: the attempt number and what it
    raised. *)
Fixpoint smtp_attempts (t : list event) : list (nat * option exn) :=
  match t with
  | [] => []
  | EvIO (OpSmtp _ attempt) r :: t' => (attempt, r) :: smtp_attempts t'
  | _ :: t' => smtp_attempts t'
  end.

(** The seconds slept. *)
Fixpoint slept (t : list event) : nat :=
  match t with
  | [] => 0
  | EvSleep secs :: t' => secs + slept t'
  | _ :: t' => slept t'
  end.

(** The log records of a level. *)
Fixpoint logged (l : level) (t : list event) : list string :=
  match t with
  | [] => []
  | EvLog l' msg :: t' => if decide (l' = l) then msg :: logged l t' else logged l t'
  | _ :: t' => logged l t'
  end.

(** Attempt [j] fails with something other than an authentication error. *)
Definition fails_softly (w : World) (subject : string) (j : nat) : Prop :=
  ∃ f, oracle w (OpSmtp subject j) = Some f
       ∧ exn_kind_of (fault_exn f) ≠ SMTPAuthenticationError.

(** ** The loop over several passes *)

Section Passes.
Context `{PyLib}.

(** [while True]: before each pass the environment turns the world the last
    pass left into another; the loop ends when [execv] replaces the process. *)
Fixpoint passes (st : state) (w : World) (env : list (World → World))
    : list tick_result :=
  match env with
  | [] => []
  | step :: env' =>
      let r := tick st (step w) in
      r :: match tick_outcome r with
           | Restarted => []
           | _ => passes (tick_state r) (tick_world r) env'
           end
  end.

End Passes.

(** ** Start-up (lines 112-144) *)

Definition REPO_URL : string := "https://github.com/EphemeralEon/mqtt-client.git".
Definition max_retries : nat := 5.

(** The fallible steps before the loop: [client.tls_set], [client.connect]
    and [client.loop_start] of a connection attempt, [git.Repo.clone_from]
    and [git.Repo("repo")]. *)
Inductive boot_op :=
  | OpTlsSet
  | OpConnect (attempt : nat)
  | OpLoopStart (attempt : nat)
  | OpClone
  | OpOpenRepo.

#[global] Instance boot_op_eq_dec : EqDecision boot_op.
Proof. solve_decision. Defined.

(** Whether the directory [repo] exists, and which start-up steps raise. *)
Record Host := {
  repo_present : bool;
  host_oracle : boot_op → option exn
}.

Inductive boot_event :=
  | BootIO (o : boot_op) (raised : option exn)
  | BootEv (e : event).

#[global] Instance boot_event_eq_dec : EqDecision boot_event.
Proof. solve_decision. Defined.

(** How start-up ends: the loop is entered with these variables, [exit(code)]
    was called, or an exception no handler names ended the process. *)
Inductive boot_end :=
  | Ready (st : state)
  | Exit (code : nat)
  | Stopped (s : signal).

Definition Uncaught (e : exn) : boot_end := Stopped (SigRaise e).

(** Lines 117-130, for any number of retries: [Some code] when [exit(code)]
    was called. *)
Fixpoint connect_loop (h : Host) (retries : nat) (attempts : list nat)
    : option nat * list boot_event :=
  match attempts with
  | [] => (None, [])
  | attempt :: rest =>
      let failed (done : list boot_event) (e : exn) :=
        let t := done ++ [BootEv (EvLog ERROR
                   ("Connection attempt " +:+ pretty (attempt + 1) +:+ "/"
                    +:+ pretty retries +:+ " failed: " +:+ exn_msg e))] in
        if bool_decide (attempt < retries - 1) then
          (fst (connect_loop h retries rest),
           t ++ BootEv (EvSleep 5) :: snd (connect_loop h retries rest))
        else
          (Some 1, t ++ [BootEv (EvLog CRITICAL "Max retries reached. Exiting.")]) in
      match host_oracle h (OpConnect attempt) with
      | Some e => failed [BootIO (OpConnect attempt) (Some e)] e
      | None =>
          match host_oracle h (OpLoopStart attempt) with
          | Some e =>
              failed [BootIO (OpConnect attempt) None;
                      BootIO (OpLoopStart attempt) (Some e)] e
          | None =>
              (None, [BootIO (OpConnect attempt) None; BootIO (OpLoopStart attempt) None])
          end
      end
  end.

(** Lines 132-139: clone the repository unless the directory is there. *)
Definition clone_repo (h : Host) (w : World) : option boot_end * World * list boot_event :=
  if repo_present h then (None, w, [])
  else
    match host_oracle h OpClone with
    | None =>
        (None, checkout w,
         [BootIO OpClone None; BootEv (EvLog INFO ("Cloned repo from " +:+ REPO_URL))])
    | Some e =>
        match exn_kind_of e with
        | GitCommandError =>
            (Some (Exit 1), w,
             [BootIO OpClone (Some e);
              BootEv (EvLog CRITICAL ("Failed to clone repo: " +:+ exn_msg e))])
        | _ => (Some (Uncaught e), w, [BootIO OpClone (Some e)])
        end
    end.

Section Boot.
Context `{PyLib}.

(** Lines 112-144, up to the first pass of the loop. *)
Definition boot (h : Host) (w : World) : boot_end * World * list boot_event :=
  match host_oracle h OpTlsSet with
  | Some e => (Uncaught e, w, [BootIO OpTlsSet (Some e)])
  | None =>
      let '(stop, t1) := connect_loop h max_retries (seq 0 max_retries) in
      match stop with
      | Some code => (Exit code, w, BootIO OpTlsSet None :: t1)
      | None =>
          let '(stop2, w2, t2) := clone_repo h w in
          match stop2 with
          | Some e => (e, w2, BootIO OpTlsSet None :: t1 ++ t2)
          | None =>
              match host_oracle h OpOpenRepo with
              | Some e =>
                  (Uncaught e, w2,
                   BootIO OpTlsSet None :: t1 ++ t2 ++ [BootIO OpOpenRepo (Some e)])
              | None =>
                  let '(r, w3, t3) := startup w2 in
                  (match r with
                   | Done st => Ready st
                   | Abrupt s => Stopped s
                   end, w3,
                   BootIO OpTlsSet None :: t1 ++ t2 ++ BootIO OpOpenRepo None
                     :: map BootEv t3)
              end
          end
      end
  end.

End Boot.

(** The connection attempts made, and the seconds slept, during start-up. *)
Fixpoint connect_attempts (t : list boot_event) : list nat :=
  match t with
  | [] => []
  | BootIO (OpConnect attempt) _ :: t' => attempt :: connect_attempts t'
  | _ :: t' => connect_attempts t'
  end.

Fixpoint boot_slept (t : list boot_event) : nat :=
  match t with
  | [] => 0
  | BootEv (EvSleep secs) :: t' => secs + boot_slept t'
  | _ :: t' => boot_slept t'
  end.

(** Attempt [k] connects: neither [connect] nor [loop_start] raises. *)
Definition connects (h : Host) (k : nat) : Prop :=
  host_oracle h (OpConnect k) = None ∧ host_oracle h (OpLoopStart k) = None.

#[global] Instance connects_dec h k : Decision (connects h k).
Proof. unfold connects. apply _. Defined.

(** An event of the connection loop: a connection step, a log record or a
    sleep. *)
Definition connecting (e : boot_event) : Prop :=
  match e with
  | BootIO (OpConnect _) _ | BootIO (OpLoopStart _) _ => True
  | BootEv (EvLog _ _) | BootEv (EvSleep _) => True
  | _ => False
  end.

(** ** A small executable library

    Stand-ins for the library functions, used to run the client on concrete
    worlds: a 64-digit hexadecimal digest, a bracket-balance check for the
    parser, and a reader and writer for ledger records. *)
Module Ref.

Definition hex_digit (n : N) : ascii :=
  match n with
  | 0%N => "0" | 1%N => "1" | 2%N => "2" | 3%N => "3" | 4%N => "4" | 5%N => "5"
  | 6%N => "6" | 7%N => "7" | 8%N => "8" | 9%N => "9" | 10%N => "a" | 11%N => "b"
  | 12%N => "c" | 13%N => "d" | 14%N => "e" | _ => "f"
  end%char.

Fixpoint hex_fixed (width : nat) (n : N) (acc : string) : string :=
  match width with
  | O => acc
  | S k => hex_fixed k (n `div` 16)%N (String (hex_digit (n `mod` 16)%N) acc)
  end.

(** A 256-bit fold in the style of FNV-1a: xor the byte in, multiply by the
    prime [2^168 + 2^8 + 0x63]. *)
Definition mix_prime : N := (2 ^ 168 + 2 ^ 8 + 99)%N.
Definition mix_basis : N :=
  0xdd268dbcaac550362d98c384c4e576ccc8b1536847b6bbb31023b4c8caee0535%N.

Fixpoint mix (b : string) (acc : N) : N :=
  match b with
  | EmptyString => acc
  | String c rest => mix rest ((N.lxor acc (N_of_ascii c) * mix_prime) `mod` (2 ^ 256))%N
  end.

Definition digest (b : string) : string := hex_fixed 64 (mix b mix_basis) "".

Fixpoint balanced (src : string) (depth : nat) : bool :=
  match src with
  | EmptyString => bool_decide (depth = 0)
  | String c rest =>
      if Ascii.eqb c "("%char then balanced rest (S depth)
      else if Ascii.eqb c ")"%char then
        match depth with O => false | S d => balanced rest d end
      else balanced rest depth
  end.

Definition parse (src : string) : option exn :=
  if balanced src 0 then None else Some (Exn SyntaxError "unbalanced parenthesis").

Definition dq : string := String "034"%char EmptyString.

Definition dumps (v : json) : string :=
  match v with
  | JObject [(k, JString s)] => "{" +:+ dq +:+ k +:+ dq +:+ ": " +:+ dq +:+ s +:+ dq +:+ "}"
  | JObject [(k, JNull)] => "{" +:+ dq +:+ k +:+ dq +:+ ": null}"
  | _ => "null"
  end.

(** Splits [s] at its first double quote. *)
Fixpoint until_quote (s : string) : option (string * string) :=
  match s with
  | EmptyString => None
  | String c rest =>
      if Ascii.eqb c "034"%char then Some (EmptyString, rest)
      else match until_quote rest with
           | Some (a, b) => Some (String c a, b)
           | None => None
           end
  end.

Fixpoint strip_prefix (pre s : string) : option string :=
  match pre, s with
  | EmptyString, _ => Some s
  | String c pre', String d s' => if Ascii.eqb c d then strip_prefix pre' s' else None
  | String _ _, EmptyString => None
  end.

(** No double quote occurs in the string. *)
Fixpoint plain (s : string) : bool :=
  match s with
  | EmptyString => true
  | String c rest => negb (Ascii.eqb c "034"%char) && plain rest
  end.

Definition decode_error : exn := Exn JSONDecodeError "Expecting value".

Definition loads (text : string) : json + exn :=
  match strip_prefix ("{" +:+ dq) text with
  | None => if String.eqb text "null" then inl JNull else inr decode_error
  | Some s1 =>
      match until_quote s1 with
      | None => inr decode_error
      | Some (k, s2) =>
          if String.eqb s2 ": null}" then inl (JObject [(k, JNull)])
          else match strip_prefix (": " +:+ dq) s2 with
               | None => inr decode_error
               | Some s3 =>
                   match until_quote s3 with
                   | Some (v, "}") => inl (JObject [(k, JString v)])
                   | _ => inr decode_error
                   end
               end
      end
  end.

#[export] Instance lib : PyLib := {|
  sha256_hexdigest := digest;
  ast_parse := parse;
  json_loads := loads;
  json_dumps := dumps
|}.

(** A world in which nothing fails. *)
Definition calm : op → option fault := λ _, None.

Definition world (fs : list (string * string)) (rem : option string) : World :=
  {| files := list_to_map fs; remote := rem; oracle := calm |}.

(** Worlds in which one operation fails. *)
Definition disk_full : exn := Exn OtherException "[Errno 28] No space left on device".
Definition denied : exn := Exn OtherException "[Errno 13] Permission denied".
Definition exec_error : exn := Exn OtherException "[Errno 8] Exec format error".

Definition failing (o : op) (f : fault) : op → option fault :=
  λ o', if decide (o' = o) then Some f else None.

Definition faulty (fs : list (string * string)) (rem : option string)
    (o : op) (f : fault) : World :=
  {| files := list_to_map fs; remote := rem; oracle := failing o f |}.

(** The running file holds [x = 1]; the remote holds a file that does not
    parse, one that does, or the same file. *)
Definition w_bad : World := world [(current_file, "x = 1")] (Some "x = (1").
Definition w_good : World := world [(current_file, "x = 1")] (Some "x = (2)").
Definition w_same : World := world [(current_file, "x = 1")] (Some "x = 1").

(** The operator replaced the running file after the client started on
    [w_bad]. *)
Definition w_replaced : World := world [(current_file, "x = 3")] (Some "x = (1").

(** The copy to the backup, or the copy over the running file, runs out of
    disk; [execv] fails. *)
Definition w_backup_fails : World :=
  faulty [(current_file, "x = 1")] (Some "x = (2)")
    (OpCopy current_file backup) (FailsAfter 2 disk_full).
Definition w_install_fails : World :=
  faulty [(current_file, "x = 1")] (Some "x = (2)")
    (OpCopy new_file current_file) (FailsAfter 3 disk_full).
Definition w_exec_fails : World :=
  faulty [(current_file, "x = 1")] (Some "x = (2)")
    (OpExec current_file) (Fails exec_error).

(** The ledger remembers another candidate; writing it is refused, or runs
    out of disk once the file is open. *)
Definition old_record : string := ledger_record (Some (digest "x = (0")).
Definition w_ledger_denied : World :=
  faulty [(current_file, "x = 1"); (FAILED_UPDATE_FILE, old_record)] (Some "x = (1")
    (OpWrite FAILED_UPDATE_FILE) (Fails denied).
Definition w_ledger_full : World :=
  faulty [(current_file, "x = 1"); (FAILED_UPDATE_FILE, old_record)] (Some "x = (1")
    (OpWrite FAILED_UPDATE_FILE) (FailsAfter 0 disk_full).

(** Mail servers: the first [soft] attempts time out, and the next one is
    refused for its credentials when [refuse] is set. *)
Definition timed_out : exn := Exn OtherException "timed out".
Definition bad_login : exn :=
  Exn SMTPAuthenticationError "(535, b'5.7.8 Username and Password not accepted')".

Definition mail_server (soft : nat) (refuse : bool) : op → option fault :=
  λ o, match o with
       | OpSmtp _ attempt =>
           if bool_decide (attempt < soft) then Some (Fails timed_out)
           else if refuse then Some (Fails bad_login) else None
       | _ => None
       end.

Definition w_mail (soft : nat) (refuse : bool) : World :=
  {| files := ∅; remote := None; oracle := mail_server soft refuse |}.

(** The remote cannot be reached; the remote has no client file; the ledger
    already holds the candidate; the running file is gone. *)
Definition unreachable : exn := Exn GitCommandError "unable to access the remote".
Definition w_offline : World :=
  faulty [(current_file, "x = 1")] (Some "x = (2)") OpPull (Fails unreachable).
Definition w_empty_remote : World := world [(current_file, "x = 1")] None.
Definition w_known : World :=
  world [(current_file, "x = 1");
         (FAILED_UPDATE_FILE, ledger_record (Some (digest "x = (1")))] (Some "x = (1").
Definition w_deleted : World := world [] (Some "x = (2)").

(** Hosts: no broker; a broker that answers the third attempt; no repository
    and a clone that fails. *)
Definition refused : exn := Exn OtherException "[Errno 111] Connection refused".

Definition h_no_broker : Host :=
  {| repo_present := true;
     host_oracle := λ o, match o with OpConnect _ => Some refused | _ => None end |}.
Definition h_slow_broker : Host :=
  {| repo_present := true;
     host_oracle := λ o, match o with
                         | OpConnect attempt =>
                             if bool_decide (attempt < 2) then Some refused else None
                         | _ => None
                         end |}.
Definition h_fresh : Host := {| repo_present := false; host_oracle := λ _, None |}.

End Ref.

(** ** Running the monad *)

Lemma bind_done {A B} (m : M A) (f : A → M B) w a w1 t1 :
  m w = (Done a, w1, t1) →
  (m ≫= f) w = ((f a w1).1.1, (f a w1).1.2, t1 ++ (f a w1).2).
Proof.
  intros Hm. unfold mbind, M_bind, bindM. rewrite Hm.
  by destruct (f a w1) as [[r w2] t2].
Qed.

Lemma bind_abrupt {A B} (m : M A) (f : A → M B) w s w1 t1 :
  m w = (Abrupt s, w1, t1) → (m ≫= f) w = (Abrupt s, w1, t1).
Proof. intros Hm. unfold mbind, M_bind, bindM. by rewrite Hm. Qed.

Lemma ops_in_elem P t o r : ops_in P t → EvIO o r ∈ t → P o.
Proof. intros Ht Hin. exact (proj1 (Forall_forall _ _) Ht _ Hin). Qed.

Lemma ops_in_app P t1 t2 : ops_in P t1 → ops_in P t2 → ops_in P (t1 ++ t2).
Proof. apply Forall_app_2. Qed.

Lemma ops_in_impl (P Q : op → Prop) t : (∀ o, P o → Q o) → ops_in P t → ops_in Q t.
Proof.
  intros HPQ Ht. eapply Forall_impl; [exact Ht|]. intros [] ?; auto.
Qed.

Ltac normalize_trace :=
  cbn [app]; repeat (rewrite <- app_assoc || rewrite <- app_comm_cons); cbn [app].

Ltac ops_auto :=
  repeat first [ apply Forall_nil_2 | apply Forall_cons_2 | apply ops_in_app
               | assumption | exact I | reflexivity ].

Section Helpers.
Context `{PyLib}.

(** *** What the helpers return *)

Lemma get_checksum_run p w :
  get_checksum p w = (Done (fingerprint w p), w, trace_of (get_checksum p) w).
Proof.
  unfold trace_of, get_checksum, fingerprint, try_except, read_file.
  unfold mbind, M_bind, bindM, mret, M_ret, retM, log.
  destruct (files w !! p) as [b|]; simpl.
  - destruct (oracle w (OpRead p Bin)) as [f|]; simpl; [|done].
    by destruct (exn_kind_of (fault_exn f)).
  - done.
Qed.

Lemma is_valid_python_run p w :
  is_valid_python p w = (Done (verdict w p), w, trace_of (is_valid_python p) w).
Proof.
  unfold trace_of, is_valid_python, verdict, try_except, read_file, parse_source.
  unfold mbind, M_bind, bindM, mret, M_ret, retM, log, raise.
  destruct (files w !! p) as [b|]; simpl; [|done].
  destruct (oracle w (OpRead p Text)) as [f|]; simpl.
  - by destruct (exn_kind_of (fault_exn f)).
  - destruct (ast_parse b) as [e|]; simpl; [|done].
    by destruct (exn_kind_of e).
Qed.

Lemma save_failed_update_run c w :
  save_failed_update c w = (Done tt, saved c w, trace_of (save_failed_update c) w).
Proof.
  unfold trace_of, save_failed_update, saved, try_except, write_file.
  unfold mbind, M_bind, bindM, log.
  by destruct (oracle w (OpWrite FAILED_UPDATE_FILE)) as [[e|n e]|].
Qed.

Lemma load_failed_update_run w :
  load_failed_update w = (Done (stored_failure w), w, trace_of load_failed_update w).
Proof.
  unfold trace_of, load_failed_update, stored_failure, try_except, path_exists, read_file.
  unfold json_load, dict_get, mbind, M_bind, bindM, mret, M_ret, retM, log, raise.
  destruct (files w !! FAILED_UPDATE_FILE) as [text|] eqn:Hfile; simpl; [|done].
  rewrite Hfile.
  destruct (oracle w (OpRead FAILED_UPDATE_FILE Text)) as [f|]; simpl.
  - by destruct (exn_kind_of (fault_exn f)).
  - destruct (json_loads text) as [[]|e]; simpl; try done.
    by destruct (exn_kind_of e).
Qed.

Lemma save_failed_update_trace c w :
  trace_of (save_failed_update c) w =
  match oracle w (OpWrite FAILED_UPDATE_FILE) with
  | None => [EvIO (OpWrite FAILED_UPDATE_FILE) None;
             EvLog INFO ("Marked update " +:+ py_str c +:+ " as failed")]
  | Some f => [EvIO (OpWrite FAILED_UPDATE_FILE) (Some (fault_exn f));
               EvLog ERROR ("Error saving failed update: " +:+ exn_msg (fault_exn f))]
  end.
Proof.
  unfold trace_of, save_failed_update, try_except, write_file.
  unfold mbind, M_bind, bindM, log.
  by destruct (oracle w (OpWrite FAILED_UPDATE_FILE)) as [[e|n e]|].
Qed.

Lemma send_email_loop_run subject retries delay attempts w :
  send_email_loop subject retries delay attempts w
  = (Done tt, w, trace_of (send_email_loop subject retries delay attempts) w).
Proof.
  unfold trace_of. induction attempts as [|a rest IH]; [done|].
  cbn [send_email_loop]. unfold mbind, M_bind, bindM, try_except, smtp_send.
  destruct (oracle w (OpSmtp subject a)) as [f|]; simpl; [|done].
  destruct (exn_kind_of (fault_exn f)); simpl;
    try done; destruct (bool_decide (a < retries - 1)); simpl; by rewrite IH.
Qed.

Lemma send_email_run subject body w :
  send_email subject body w = (Done tt, w, trace_of (send_email subject body) w).
Proof. apply send_email_loop_run. Qed.

Lemma startup_run w : startup w = (Done (booted w), w, trace_of startup w).
Proof.
  unfold trace_of, startup, mbind, M_bind, bindM, mret, M_ret, retM.
  by rewrite get_checksum_run, load_failed_update_run.
Qed.

(** *** What the helpers do *)

Lemma get_checksum_ops p w : ops_in (λ o, o = OpRead p Bin) (trace_of (get_checksum p) w).
Proof.
  unfold trace_of, get_checksum, try_except, read_file.
  unfold mbind, M_bind, bindM, mret, M_ret, retM, log.
  destruct (files w !! p) as [b|]; simpl.
  - destruct (oracle w (OpRead p Bin)) as [f|]; simpl; [|ops_auto].
    destruct (exn_kind_of (fault_exn f)); simpl; ops_auto.
  - ops_auto.
Qed.

Lemma is_valid_python_ops p w :
  ops_in (λ o, o = OpRead p Text) (trace_of (is_valid_python p) w).
Proof.
  unfold trace_of, is_valid_python, try_except, read_file, parse_source.
  unfold mbind, M_bind, bindM, mret, M_ret, retM, log, raise.
  destruct (files w !! p) as [b|]; simpl; [|ops_auto].
  destruct (oracle w (OpRead p Text)) as [f|]; simpl.
  - destruct (exn_kind_of (fault_exn f)); simpl; ops_auto.
  - destruct (ast_parse b) as [e|]; simpl; [|ops_auto].
    destruct (exn_kind_of e); simpl; ops_auto.
Qed.

Lemma is_valid_python_reads p w :
  ∃ r rest, trace_of (is_valid_python p) w = EvIO (OpRead p Text) r :: rest.
Proof.
  unfold trace_of, is_valid_python, try_except, read_file, parse_source.
  unfold mbind, M_bind, bindM, mret, M_ret, retM, log, raise.
  destruct (files w !! p) as [b|]; simpl; [|by eauto].
  destruct (oracle w (OpRead p Text)) as [f|]; simpl.
  - destruct (exn_kind_of (fault_exn f)); simpl; eauto.
  - destruct (ast_parse b) as [e|]; simpl; [|by eauto].
    destruct (exn_kind_of e); simpl; eauto.
Qed.

Lemma is_valid_python_events p w :
  ∃ r l msg, trace_of (is_valid_python p) w = [EvIO (OpRead p Text) r; EvLog l msg].
Proof.
  unfold trace_of, is_valid_python, try_except, read_file, parse_source.
  unfold mbind, M_bind, bindM, mret, M_ret, retM, log, raise.
  destruct (files w !! p) as [b|]; simpl; [|by eauto].
  destruct (oracle w (OpRead p Text)) as [f|]; simpl.
  - destruct (exn_kind_of (fault_exn f)); simpl; eauto.
  - destruct (ast_parse b) as [e|]; simpl; [|by eauto].
    destruct (exn_kind_of e); simpl; eauto.
Qed.

Lemma save_failed_update_ops c w :
  ops_in (λ o, o = OpWrite FAILED_UPDATE_FILE) (trace_of (save_failed_update c) w).
Proof.
  unfold trace_of, save_failed_update, try_except, write_file.
  unfold mbind, M_bind, bindM, log.
  destruct (oracle w (OpWrite FAILED_UPDATE_FILE)) as [[e|n e]|]; simpl; ops_auto.
Qed.

Lemma send_email_loop_ops subject retries delay attempts w :
  ops_in (λ o, ∃ a, o = OpSmtp subject a)
         (trace_of (send_email_loop subject retries delay attempts) w).
Proof.
  unfold trace_of. induction attempts as [|a rest IH]; [simpl; ops_auto|].
  cbn [send_email_loop]. unfold mbind, M_bind, bindM, try_except, smtp_send.
  destruct (oracle w (OpSmtp subject a)) as [f|]; simpl; [|ops_auto; eauto].
  destruct (exn_kind_of (fault_exn f)); simpl;
    try (destruct (bool_decide (a < retries - 1)); simpl;
         rewrite (send_email_loop_run subject retries delay rest w); simpl);
    ops_auto; eauto.
Qed.

Lemma send_email_ops subject body w :
  ops_in (λ o, ∃ a, o = OpSmtp subject a) (trace_of (send_email subject body) w).
Proof. apply send_email_loop_ops. Qed.

Lemma send_email_loop_first subject retries delay a rest w :
  ∃ r more, trace_of (send_email_loop subject retries delay (a :: rest)) w
            = EvIO (OpSmtp subject a) r :: more.
Proof.
  unfold trace_of. cbn [send_email_loop].
  unfold mbind, M_bind, bindM, try_except, smtp_send.
  destruct (oracle w (OpSmtp subject a)) as [f|]; simpl; [|by eauto].
  destruct (exn_kind_of (fault_exn f)); simpl;
    try (destruct (bool_decide (a < retries - 1)); simpl;
         rewrite (send_email_loop_run subject retries delay rest w); simpl);
    eauto.
Qed.

Lemma send_email_attempts subject body w :
  ∃ r more, trace_of (send_email subject body) w = EvIO (OpSmtp subject 0) r :: more.
Proof. apply send_email_loop_first. Qed.

(** *** The paths through one pass *)


Lemma tick_unfold st w :
  tick st w =
  match loop_body st w with
  | (Done st', w', t) =>
      {| tick_outcome := NoChange; tick_state := st'; tick_world := w';
         tick_trace := t ++ [EvSleep CHECK_INTERVAL] |}
  | (Abrupt (SigRaise e), w', t) =>
      {| tick_outcome := Errored e; tick_state := st; tick_world := w';
         tick_trace := t ++ [EvLog ERROR (handler_message e); EvSleep CHECK_INTERVAL] |}
  | (Abrupt (SigContinue c), w', t) =>
      {| tick_outcome := outcome_of (Abrupt (SigContinue c)); tick_state := st;
         tick_world := w'; tick_trace := t |}
  | (Abrupt SigExec, w', t) =>
      {| tick_outcome := Restarted; tick_state := st; tick_world := w'; tick_trace := t |}
  end.
Proof.
  unfold tick, iteration, try_except, handler_message.
  unfold mbind, M_bind, bindM, mret, M_ret, retM, sleep, log.
  destruct (loop_body st w) as [[[st'|[e|c|]] w'] t]; simpl; try done.
  destruct (exn_kind_of e); simpl; by rewrite <- app_assoc.
Qed.

Lemma loop_body_pull_fails st w f :
  oracle w OpPull = Some f →
  loop_body st w = (Abrupt (SigRaise (fault_exn f)), w, [EvIO OpPull (Some (fault_exn f))]).
Proof.
  intros Hp. unfold loop_body, mbind, M_bind, bindM, pull. by rewrite Hp.
Qed.

Lemma loop_body_missing st w :
  oracle w OpPull = None → files (checkout w) !! new_file = None →
  loop_body st w =
    (Abrupt (SigContinue AtMissing), checkout w,
     [EvIO OpPull None; EvLog ERROR ("Update file not found in repo: " +:+ new_file);
      EvSleep CHECK_INTERVAL]).
Proof.
  intros Hp Hn. unfold loop_body, mbind, M_bind, bindM, pull, path_exists.
  rewrite Hp, Hn. done.
Qed.

Ltac body_start Hp Hn :=
  unfold loop_body, mbind, M_bind, bindM, pull, path_exists;
  rewrite Hp, Hn; cbn [negb]; unfold mret, M_ret, retM;
  rewrite get_checksum_run.

Lemma loop_body_no_change st w c :
  oracle w OpPull = None → files (checkout w) !! new_file = Some c →
  update_due st (checkout w) = false →
  loop_body st w =
    (Done {| current_checksum := fingerprint (checkout w) current_file;
             failed_checksum := failed_checksum st |},
     checkout w,
     EvIO OpPull None :: trace_of (get_checksum new_file) (checkout w)
       ++ EvLog INFO "No update needed."
       :: trace_of (get_checksum current_file) (checkout w)).
Proof.
  intros Hp Hn Hg. body_start Hp Hn. unfold update_due in Hg. rewrite Hg.
  unfold log. rewrite get_checksum_run. simpl. by rewrite app_nil_r.
Qed.

Lemma loop_body_skip st w c :
  oracle w OpPull = None → files (checkout w) !! new_file = Some c →
  update_due st (checkout w) = true →
  equals_failed (fingerprint (checkout w) new_file) (failed_checksum st) = true →
  loop_body st w =
    (Abrupt (SigContinue AtSkip), checkout w,
     EvIO OpPull None :: trace_of (get_checksum new_file) (checkout w)
       ++ [EvLog INFO ("Skipping previously failed update "
                       +:+ py_str (fingerprint (checkout w) new_file));
           EvSleep CHECK_INTERVAL]).
Proof.
  intros Hp Hn Hg Hf. body_start Hp Hn. unfold update_due in Hg. rewrite Hg, Hf.
  done.
Qed.

Lemma loop_body_rejected st w c :
  oracle w OpPull = None → files (checkout w) !! new_file = Some c →
  update_due st (checkout w) = true →
  equals_failed (fingerprint (checkout w) new_file) (failed_checksum st) = false →
  verdict (checkout w) new_file = false →
  loop_body st w =
    (Abrupt (SigContinue AtRejected),
     saved (fingerprint (checkout w) new_file) (checkout w),
     EvIO OpPull None :: trace_of (get_checksum new_file) (checkout w)
       ++ EvLog INFO "Update detected!"
       :: trace_of (send_email "Client Update Started"
                      "The client is updating to a new version.") (checkout w)
       ++ trace_of (is_valid_python new_file) (checkout w)
       ++ EvLog ERROR "New version has invalid syntax. Aborting update."
       :: trace_of (send_email "Client Update Failed"
                      "New version has invalid syntax. Update aborted.") (checkout w)
       ++ trace_of (save_failed_update (fingerprint (checkout w) new_file)) (checkout w)
       ++ [EvSleep CHECK_INTERVAL]).
Proof.
  intros Hp Hn Hg Hf Hv. body_start Hp Hn. unfold update_due in Hg. rewrite Hg, Hf.
  unfold log. rewrite send_email_run, is_valid_python_run, Hv. cbn [negb].
  by rewrite send_email_run, save_failed_update_run.
Qed.

(** Case analysis of [apply_update w] on what the world decides. *)
Ltac apply_cases w :=
  unfold trace_of, apply_update, mbind, M_bind, bindM, path_exists, copy2, execv,
    log, loop_stop, mret, M_ret, retM;
  let b := fresh "b" in let c := fresh "c" in
  destruct (files w !! current_file) as [b|] eqn:Hcur;
  destruct (files w !! new_file) as [c|] eqn:Hnew;
  destruct (oracle w (OpCopy current_file backup)) as [[?|? ?]|] eqn:Hbk;
  destruct (oracle w (OpCopy new_file current_file)) as [[?|? ?]|] eqn:Hin;
  destruct (oracle w (OpExec current_file)) as [?|] eqn:Hex;
  cbn [set_file files oracle remote fst snd app];
  rewrite ?Hcur, ?Hbk;
  cbn [set_file files oracle remote fst snd app];
  rewrite ?(lookup_insert_ne (files w) backup new_file) by done;
  rewrite ?Hnew, ?Hin;
  cbn [set_file files oracle remote fst snd app];
  rewrite ?Hex;
  cbn [set_file files oracle remote fst snd app].

Lemma apply_update_abrupt w :
  (apply_update w).1.1 = Abrupt SigExec ∨ ∃ e, (apply_update w).1.1 = Abrupt (SigRaise e).
Proof. apply_cases w; eauto. Qed.

Lemma apply_update_frame w p :
  p ≠ backup → p ≠ current_file → files (apply_update w).1.2 !! p = files w !! p.
Proof.
  intros Hb Hc. apply_cases w; rewrite ?lookup_insert_ne by done; done.
Qed.

Lemma apply_update_ops w :
  ops_in (λ o, o = OpCopy current_file backup ∨ o = OpCopy new_file current_file
               ∨ o = OpExec current_file)
         (trace_of apply_update w).
Proof. apply_cases w; ops_auto; auto. Qed.

Lemma apply_update_restarted w R C :
  (apply_update w).1.1 = Abrupt SigExec →
  files w !! current_file = Some R → files w !! new_file = Some C →
  files (apply_update w).1.2 !! backup = Some R
  ∧ files (apply_update w).1.2 !! current_file = Some C
  ∧ trace_of apply_update w
    = [EvIO (OpCopy current_file backup) None; EvIO (OpCopy new_file current_file) None;
       EvLog INFO "Restarting with new version..."; EvLoopStop;
       EvIO (OpExec current_file) None].
Proof.
  intros Hr HR HC. revert Hr. apply_cases w; try discriminate.
  intros _. simplify_eq.
  rewrite lookup_insert_eq, lookup_insert_ne, lookup_insert_eq by done. done.
Qed.

Lemma apply_update_backup_fails w e :
  EvIO (OpCopy current_file backup) (Some e) ∈ trace_of apply_update w →
  (apply_update w).1.1 = Abrupt (SigRaise e)
  ∧ files (apply_update w).1.2 !! current_file = files w !! current_file.
Proof.
  apply_cases w; rewrite ?elem_of_cons, ?elem_of_nil; intros Hmem;
    repeat (destruct Hmem as [Hmem|Hmem]; try discriminate); try done;
    simplify_eq; rewrite ?lookup_insert_ne by done; done.
Qed.

Lemma apply_update_copy_fails w src dst e :
  EvIO (OpCopy src dst) (Some e) ∈ trace_of apply_update w →
  (apply_update w).1.1 = Abrupt (SigRaise e).
Proof.
  apply_cases w; rewrite ?elem_of_cons, ?elem_of_nil; intros Hmem;
    repeat (destruct Hmem as [Hmem|Hmem]; try discriminate); try done;
    by simplify_eq.
Qed.

Lemma loop_body_apply st w c :
  oracle w OpPull = None → files (checkout w) !! new_file = Some c →
  update_due st (checkout w) = true →
  equals_failed (fingerprint (checkout w) new_file) (failed_checksum st) = false →
  verdict (checkout w) new_file = true →
  ∃ s, (apply_update (checkout w)).1.1 = Abrupt s ∧ (s = SigExec ∨ ∃ e, s = SigRaise e) ∧
  loop_body st w =
    (Abrupt s, (apply_update (checkout w)).1.2,
     announced (checkout w) ++ trace_of apply_update (checkout w)).
Proof.
  intros Hp Hn Hg Hf Hv.
  assert (∃ s, (apply_update (checkout w)).1.1 = Abrupt s ∧ (s = SigExec ∨ ∃ e, s = SigRaise e))
    as (s & Hs & Hse) by (destruct (apply_update_abrupt (checkout w)) as [?|[e ?]]; eauto).
  exists s. split; [exact Hs|]. split; [exact Hse|].
  body_start Hp Hn. unfold update_due in Hg. rewrite Hg, Hf.
  unfold log. rewrite send_email_run, is_valid_python_run, Hv. cbn [negb].
  replace (trace_of apply_update (checkout w)) with (apply_update (checkout w)).2 by done.
  destruct (apply_update (checkout w)) as [[r w'] t]. simpl in Hs. subst r.
  unfold announced. by normalize_trace.
Qed.

Lemma checkout_new w : files (checkout w) !! new_file = remote w.
Proof.
  unfold checkout. simpl. destruct (remote w).
  - apply lookup_insert_eq.
  - apply lookup_delete_eq.
Qed.

Lemma checkout_other w p : p ≠ new_file → files (checkout w) !! p = files w !! p.
Proof.
  intros Hp. unfold checkout. simpl. destruct (remote w).
  - by apply lookup_insert_ne.
  - by apply lookup_delete_ne.
Qed.

(** Every pass takes one of six paths. *)
Lemma tick_cases st w :
  (∃ f, oracle w OpPull = Some f ∧
     tick st w = {| tick_outcome := Errored (fault_exn f); tick_state := st; tick_world := w;
                    tick_trace := [EvIO OpPull (Some (fault_exn f));
                                   EvLog ERROR (handler_message (fault_exn f));
                                   EvSleep CHECK_INTERVAL] |})
  ∨ (oracle w OpPull = None ∧ remote w = None ∧
     tick st w = {| tick_outcome := Missing; tick_state := st; tick_world := checkout w;
                    tick_trace := [EvIO OpPull None;
                                   EvLog ERROR ("Update file not found in repo: " +:+ new_file);
                                   EvSleep CHECK_INTERVAL] |})
  ∨ (∃ c, oracle w OpPull = None ∧ remote w = Some c ∧ update_due st (checkout w) = false ∧
     tick st w = {| tick_outcome := NoChange;
                    tick_state := {| current_checksum := fingerprint (checkout w) current_file;
                                     failed_checksum := failed_checksum st |};
                    tick_world := checkout w;
                    tick_trace := EvIO OpPull None :: trace_of (get_checksum new_file) (checkout w)
                                  ++ EvLog INFO "No update needed."
                                  :: trace_of (get_checksum current_file) (checkout w)
                                  ++ [EvSleep CHECK_INTERVAL] |})
  ∨ (∃ c, oracle w OpPull = None ∧ remote w = Some c ∧ update_due st (checkout w) = true ∧
     equals_failed (fingerprint (checkout w) new_file) (failed_checksum st) = true ∧
     tick st w = {| tick_outcome := Skipped; tick_state := st; tick_world := checkout w;
                    tick_trace := EvIO OpPull None :: trace_of (get_checksum new_file) (checkout w)
                                  ++ [EvLog INFO ("Skipping previously failed update "
                                         +:+ py_str (fingerprint (checkout w) new_file));
                                      EvSleep CHECK_INTERVAL] |})
  ∨ (∃ c, oracle w OpPull = None ∧ remote w = Some c ∧ update_due st (checkout w) = true ∧
     equals_failed (fingerprint (checkout w) new_file) (failed_checksum st) = false ∧
     verdict (checkout w) new_file = false ∧
     tick st w = {| tick_outcome := Rejected; tick_state := st;
                    tick_world := saved (fingerprint (checkout w) new_file) (checkout w);
                    tick_trace := announced (checkout w)
                      ++ EvLog ERROR "New version has invalid syntax. Aborting update."
                      :: trace_of (send_email "Client Update Failed"
                                     "New version has invalid syntax. Update aborted.")
                           (checkout w)
                      ++ trace_of (save_failed_update (fingerprint (checkout w) new_file))
                           (checkout w)
                      ++ [EvSleep CHECK_INTERVAL] |})
  ∨ (∃ c, oracle w OpPull = None ∧ remote w = Some c ∧ update_due st (checkout w) = true ∧
     equals_failed (fingerprint (checkout w) new_file) (failed_checksum st) = false ∧
     verdict (checkout w) new_file = true ∧
     ((apply_update (checkout w)).1.1 = Abrupt SigExec ∧
      tick st w = {| tick_outcome := Restarted; tick_state := st;
                     tick_world := (apply_update (checkout w)).1.2;
                     tick_trace := announced (checkout w)
                                   ++ trace_of apply_update (checkout w) |}
      ∨ ∃ e, (apply_update (checkout w)).1.1 = Abrupt (SigRaise e) ∧
        tick st w = {| tick_outcome := Errored e; tick_state := st;
                       tick_world := (apply_update (checkout w)).1.2;
                       tick_trace := (announced (checkout w)
                                      ++ trace_of apply_update (checkout w))
                                     ++ [EvLog ERROR (handler_message e);
                                         EvSleep CHECK_INTERVAL] |})).
Proof.
  rewrite tick_unfold.
  destruct (oracle w OpPull) as [f|] eqn:Hp.
  { left. exists f. split; [done|]. by rewrite (loop_body_pull_fails st w f Hp). }
  right. pose proof (checkout_new w) as Hn.
  destruct (remote w) as [c|] eqn:Hr.
  2: { left. by rewrite (loop_body_missing st w Hp Hn). }
  right. destruct (update_due st (checkout w)) eqn:Hg.
  2: { left. exists c. rewrite (loop_body_no_change st w c Hp Hn Hg).
       repeat split; try done. by normalize_trace. }
  right.
  destruct (equals_failed (fingerprint (checkout w) new_file) (failed_checksum st)) eqn:Hf.
  { left. exists c. by rewrite (loop_body_skip st w c Hp Hn Hg Hf). }
  right. destruct (verdict (checkout w) new_file) eqn:Hv.
  2: { left. exists c. rewrite (loop_body_rejected st w c Hp Hn Hg Hf Hv).
       repeat split; try done. unfold announced. by normalize_trace. }
  right. exists c.
  destruct (loop_body_apply st w c Hp Hn Hg Hf Hv) as (s & Hs & [->|[e ->]] & ->);
    repeat split; try done; [left|right; exists e]; done.
Qed.

(** *** Reading a trace *)

Lemma get_checksum_elem p w o r :
  EvIO o r ∈ trace_of (get_checksum p) w → o = OpRead p Bin.
Proof. apply (ops_in_elem _ _ _ _ (get_checksum_ops p w)). Qed.

Lemma is_valid_python_elem p w o r :
  EvIO o r ∈ trace_of (is_valid_python p) w → o = OpRead p Text.
Proof. apply (ops_in_elem _ _ _ _ (is_valid_python_ops p w)). Qed.

Lemma save_failed_update_elem c w o r :
  EvIO o r ∈ trace_of (save_failed_update c) w → o = OpWrite FAILED_UPDATE_FILE.
Proof. apply (ops_in_elem _ _ _ _ (save_failed_update_ops c w)). Qed.

Lemma send_email_elem subject body w o r :
  EvIO o r ∈ trace_of (send_email subject body) w → ∃ a, o = OpSmtp subject a.
Proof. apply (ops_in_elem _ _ _ _ (send_email_ops subject body w)). Qed.

Lemma apply_update_elem w o r :
  EvIO o r ∈ trace_of apply_update w →
  o = OpCopy current_file backup ∨ o = OpCopy new_file current_file ∨ o = OpExec current_file.
Proof. apply (ops_in_elem _ _ _ _ (apply_update_ops w)). Qed.

End Helpers.

(** Splits a membership [H : EvIO o r ∈ t] along the shape of [t]. *)
Ltac trace_split H :=
  unfold announced in H;
  repeat first
    [ apply elem_of_app in H; destruct H as [H|H]
    | apply elem_of_cons in H; destruct H as [H|H]
    | apply elem_of_nil in H; destruct H ];
  try discriminate.

Ltac trace_inv H :=
  unfold announced in H;
  repeat first
    [ apply elem_of_app in H; destruct H as [H|H]
    | apply elem_of_cons in H; destruct H as [H|H]
    | apply elem_of_nil in H; destruct H
    | apply get_checksum_elem in H
    | apply is_valid_python_elem in H
    | apply save_failed_update_elem in H
    | apply send_email_elem in H; destruct H as [? H]
    | apply apply_update_elem in H; destruct H as [H|[H|H]] ];
  try discriminate.

(** ** The executable library meets the assumptions made on the real one *)

Module RefFacts.
Import Ref.

Lemma hex_fixed_length width n acc :
  String.length (hex_fixed width n acc) = width + String.length acc.
Proof.
  revert n acc. induction width as [|k IH]; intros n acc; simpl; [done|].
  rewrite IH. simpl. lia.
Qed.

Lemma digest_length b : String.length (digest b) = 64.
Proof. unfold digest. by rewrite hex_fixed_length. Qed.

Lemma hex_digit_plain n : Ascii.eqb (hex_digit n) "034"%char = false.
Proof.
  destruct n as [|p]; [done|].
  destruct p as [p|p|]; try done; destruct p as [p|p|]; try done;
    destruct p as [p|p|]; try done; destruct p as [p|p|]; done.
Qed.

Lemma hex_fixed_plain width n acc : plain acc = true → plain (hex_fixed width n acc) = true.
Proof.
  revert n acc. induction width as [|k IH]; intros n acc Hacc; simpl; [done|].
  apply IH. simpl. by rewrite hex_digit_plain, Hacc.
Qed.

Lemma until_quote_plain s rest :
  plain s = true → until_quote (s +:+ dq +:+ rest) = Some (s, rest).
Proof.
  induction s as [|c s IH]; simpl; [done|].
  intros [Hc Hs]%andb_prop. apply negb_true_iff in Hc. by rewrite Hc, IH.
Qed.

Lemma strip_prefix_app pre s : strip_prefix pre (pre +:+ s) = Some s.
Proof.
  induction pre as [|c pre IH]; [by destruct s|].
  change (String c pre +:+ s) with (String c (pre +:+ s)).
  cbn [strip_prefix]. by rewrite Ascii.eqb_refl.
Qed.

Lemma record_roundtrip s :
  plain s = true →
  loads (dumps (JObject [("checksum", JString s)])) = inl (JObject [("checksum", JString s)]).
Proof.
  intros Hs. unfold dumps, loads.
  change ("{" +:+ dq +:+ "checksum" +:+ dq +:+ ": " +:+ dq +:+ s +:+ dq +:+ "}")
    with (("{" +:+ dq) +:+ ("checksum" +:+ dq +:+ ((": " +:+ dq) +:+ (s +:+ dq +:+ "}")))).
  rewrite strip_prefix_app, until_quote_plain by reflexivity.
  change (((": " +:+ dq) +:+ (s +:+ dq +:+ "}")) =? ": null}")%string with false.
  rewrite strip_prefix_app, until_quote_plain by exact Hs.
  reflexivity.
Qed.

Lemma digest_plain b : plain (digest b) = true.
Proof. unfold digest. by apply hex_fixed_plain. Qed.

Lemma ledger_roundtrip b :
  json_loads (ledger_record (Some (sha256_hexdigest b)))
  = inl (JObject [("checksum", JString (sha256_hexdigest b))]).
Proof. apply record_roundtrip, digest_plain. Qed.

End RefFacts.

(** ** The properties of the design *)

Section Claims.
Context `{PyLib}.

(** A SHA-256 digest in hexadecimal has 64 characters. *)
Hypothesis hexdigest_length : ∀ b, String.length (sha256_hexdigest b) = 64.

(** [json.loads] reads back the record [json.dumps] wrote for a digest. *)
Hypothesis ledger_roundtrip : ∀ b,
  json_loads (ledger_record (Some (sha256_hexdigest b)))
  = inl (JObject [("checksum", JString (sha256_hexdigest b))]).

Lemma digest_truthy b : truthy (Some (sha256_hexdigest b)) = true.
Proof.
  simpl. specialize (hexdigest_length b).
  by destruct (sha256_hexdigest b).
Qed.

(** C7.  [get_checksum] is deterministic and explicit about failure: it
    never raises and leaves the world alone; two readable files with the same
    bytes get the same fingerprint, the digest of those bytes; a missing or
    unreadable file gets [None]; and whatever it returns as a fingerprint is
    the digest of the whole content, 64 characters long and so true in the
    loop's test, which [None] is not. *)
Theorem get_checksum_deterministic (p q : string) (w1 w2 : World) :
  (∃ t, get_checksum p w1 = (Done (fingerprint w1 p), w1, t))
  ∧ (∀ b, files w1 !! p = Some b → files w2 !! q = Some b →
          oracle w1 (OpRead p Bin) = None → oracle w2 (OpRead q Bin) = None →
          fingerprint w1 p = Some (sha256_hexdigest b)
          ∧ fingerprint w2 q = fingerprint w1 p)
  ∧ (files w1 !! p = None ∨ oracle w1 (OpRead p Bin) ≠ None → fingerprint w1 p = None)
  ∧ (∀ h, fingerprint w1 p = Some h →
          (∃ b, files w1 !! p = Some b ∧ h = sha256_hexdigest b)
          ∧ String.length h = 64 ∧ truthy (Some h) = true)
  ∧ truthy None = false.
Proof.
  split; [|split; [|split; [|split]]].
  - eexists. apply get_checksum_run.
  - intros b Hb1 Hb2 Ho1 Ho2. unfold fingerprint. by rewrite Hb1, Hb2, Ho1, Ho2.
  - unfold fingerprint. intros [Hn|Hf].
    + by rewrite Hn.
    + destruct (files w1 !! p); [|done]. by destruct (oracle w1 (OpRead p Bin)).
  - unfold fingerprint. intros h Hh.
    destruct (files w1 !! p) as [b|]; [|done].
    destruct (oracle w1 (OpRead p Bin)); [done|].
    injection Hh as <-. split; [by eauto|]. split; [apply hexdigest_length|].
    apply digest_truthy.
  - done.
Qed.

(** C6.  [is_valid_python] always returns a verdict, never raises and leaves
    the world as it found it; the verdict is [False] when the file cannot be
    read and when [ast.parse] raises anything at all; and all it does is open
    the file in text mode, once, and write one log record: nothing is
    executed, written or sent. *)
Theorem is_valid_python_verdict (p : string) (w : World) :
  ∃ t, is_valid_python p w = (Done (verdict w p), w, t)
  ∧ (files w !! p = None ∨ oracle w (OpRead p Text) ≠ None → verdict w p = false)
  ∧ (∀ src e, files w !! p = Some src → ast_parse src = Some e → verdict w p = false)
  ∧ (∀ src, files w !! p = Some src → oracle w (OpRead p Text) = None →
            ast_parse src = None → verdict w p = true)
  ∧ (∃ r l msg, t = [EvIO (OpRead p Text) r; EvLog l msg]).
Proof.
  exists (trace_of (is_valid_python p) w).
  split; [apply is_valid_python_run|]. unfold verdict.
  split; [|split; [|split]].
  - intros [Hn|Hf]; [by rewrite Hn|].
    destruct (files w !! p); [|done]. by destruct (oracle w (OpRead p Text)).
  - intros src e Hs He. rewrite Hs, He. by destruct (oracle w (OpRead p Text)).
  - intros src Hs Ho He. by rewrite Hs, Ho, He.
  - apply is_valid_python_events.
Qed.

(** C8.  [load_failed_update] never raises and answers [None] when the ledger
    file is absent, unreadable or not JSON (or JSON that is not an object with
    a checksum); [save_failed_update], when its write goes through, leaves
    exactly the one-field record of the fingerprint it was given, whatever
    the file held before, and that fingerprint is what is loaded next. *)
Theorem ledger_single_record (w : World) (c : option string) :
  (∃ t, load_failed_update w = (Done (stored_failure w), w, t))
  ∧ (files w !! FAILED_UPDATE_FILE = None → stored_failure w = JNull)
  ∧ (oracle w (OpRead FAILED_UPDATE_FILE Text) ≠ None → stored_failure w = JNull)
  ∧ (∀ text e, files w !! FAILED_UPDATE_FILE = Some text → json_loads text = inr e →
               stored_failure w = JNull)
  ∧ (∀ text v, files w !! FAILED_UPDATE_FILE = Some text → json_loads text = inl v →
               (∀ fields, v ≠ JObject fields) → stored_failure w = JNull)
  ∧ (oracle w (OpWrite FAILED_UPDATE_FILE) = None →
       ∃ t, save_failed_update c w
            = (Done tt, set_file FAILED_UPDATE_FILE (ledger_record c) w, t)
       ∧ files (saved c w) !! FAILED_UPDATE_FILE = Some (ledger_record c)
       ∧ (∀ p, p ≠ FAILED_UPDATE_FILE → files (saved c w) !! p = files w !! p)
       ∧ (∀ b, c = Some (sha256_hexdigest b) →
               oracle w (OpRead FAILED_UPDATE_FILE Text) = None →
               stored_failure (saved c w) = JString (sha256_hexdigest b))).
Proof.
  split; [eexists; apply load_failed_update_run|].
  unfold stored_failure. split; [|split; [|split; [|split]]].
  - by intros ->.
  - intros Hf. destruct (files w !! FAILED_UPDATE_FILE); [|done].
    by destruct (oracle w (OpRead FAILED_UPDATE_FILE Text)).
  - intros text e Ht He. rewrite Ht, He.
    by destruct (oracle w (OpRead FAILED_UPDATE_FILE Text)).
  - intros text v Ht Hv Hno. rewrite Ht, Hv.
    destruct (oracle w (OpRead FAILED_UPDATE_FILE Text)); [done|].
    destruct v; try done. by destruct (Hno fields).
  - intros Hw. exists (trace_of (save_failed_update c) w).
    assert (Hs : saved c w = set_file FAILED_UPDATE_FILE (ledger_record c) w)
      by (unfold saved; by rewrite Hw).
    split; [by rewrite save_failed_update_run, Hs|]. rewrite Hs.
    split; [apply lookup_insert_eq|].
    split; [intros p Hp; by apply lookup_insert_ne|].
    intros b -> Hr. cbn [set_file files oracle].
    by rewrite lookup_insert_eq, Hr, ledger_roundtrip.
Qed.

(** C3.  A pass that ends in the replacement of the process leaves the backup
    file with what the running file held before the pass and the running file
    with the candidate; the backup copy is the first write of the pass and the
    overwrite of the running file comes right after it.  Such a pass happens
    only for a candidate that parses and whose fingerprint differs from the
    supervisor's current one. *)
Theorem successful_apply_backs_up_then_installs (st : state) (w : World) (R C : string) :
  tick_outcome (tick st w) = Restarted →
  files w !! current_file = Some R →
  remote w = Some C →
  files (tick_world (tick st w)) !! backup = Some R
  ∧ files (tick_world (tick st w)) !! current_file = Some C
  ∧ (∃ before,
       tick_trace (tick st w)
       = before ++ [EvIO (OpCopy current_file backup) None;
                    EvIO (OpCopy new_file current_file) None;
                    EvLog INFO "Restarting with new version..."; EvLoopStop;
                    EvIO (OpExec current_file) None]
       ∧ ops_in (λ o, o = OpPull ∨ (∃ p m, o = OpRead p m) ∨ ∃ s a, o = OpSmtp s a) before)
  ∧ ast_parse C = None
  ∧ current_checksum st ≠ Some (sha256_hexdigest C).
Proof.
  intros Hout HR HC.
  destruct (tick_cases st w) as
    [(f & _ & Ht)|[(_ & _ & Ht)|[(c & _ & _ & _ & Ht)|[(c & _ & _ & _ & _ & Ht)|
    [(c & _ & _ & _ & _ & _ & Ht)|(c & Hp & Hc & Hg & Hf & Hv & Ha)]]]]];
    try (rewrite Ht in Hout; discriminate).
  destruct Ha as [[Hexec Ht]|(e & _ & Ht)]; [|rewrite Ht in Hout; discriminate].
  rewrite Ht. cbn [tick_world tick_trace].
  assert (Hnew : files (checkout w) !! new_file = Some C) by (by rewrite checkout_new).
  assert (Hcur : files (checkout w) !! current_file = Some R)
    by (by rewrite checkout_other).
  destruct (apply_update_restarted (checkout w) R C Hexec Hcur Hnew) as (Hb & Hi & Htr).
  split; [exact Hb|]. split; [exact Hi|]. split; [|split].
  - exists (announced (checkout w)). split; [by rewrite Htr|].
    unfold announced. ops_auto; auto.
    + eapply ops_in_impl; [|apply get_checksum_ops]. intros o ->. eauto.
    + eapply ops_in_impl; [|apply send_email_ops]. intros o [a ->]. eauto.
    + eapply ops_in_impl; [|apply is_valid_python_ops]. intros o ->. eauto.
  - revert Hv. unfold verdict. rewrite Hnew.
    destruct (oracle (checkout w) (OpRead new_file Text)); [done|].
    by destruct (ast_parse C).
  - revert Hg. unfold update_due, fingerprint. rewrite Hnew.
    destruct (oracle (checkout w) (OpRead new_file Bin)); [done|].
    intros Hg Heq. rewrite Heq in Hg. simpl in Hg.
    rewrite String.eqb_refl in Hg. by rewrite andb_false_r in Hg.
Qed.

(** C4.  When the copy of the running file to the backup path raises, the
    exception ends the pass and the running file holds what it held before
    the pass. *)
Theorem failed_backup_keeps_running_file (st : state) (w : World) (e : exn) :
  EvIO (OpCopy current_file backup) (Some e) ∈ tick_trace (tick st w) →
  tick_outcome (tick st w) = Errored e
  ∧ files (tick_world (tick st w)) !! current_file = files w !! current_file.
Proof.
  intros Hin.
  destruct (tick_cases st w) as
    [(f & _ & Ht)|[(_ & _ & Ht)|[(c & _ & _ & _ & Ht)|[(c & _ & _ & _ & _ & Ht)|
    [(c & _ & _ & _ & _ & _ & Ht)|(c & Hp & Hc & Hg & Hf & Hv & Ha)]]]]];
    try (rewrite Ht in Hin |- *; cbn [tick_trace] in Hin; by trace_inv Hin).
  assert (Hbk : EvIO (OpCopy current_file backup) (Some e)
                ∈ trace_of apply_update (checkout w)).
  { destruct Ha as [[_ Ht]|(e' & _ & Ht)]; rewrite Ht in Hin; cbn [tick_trace] in Hin;
      repeat (apply elem_of_app in Hin; destruct Hin as [Hin|Hin]); try done;
      by trace_inv Hin. }
  destruct (apply_update_backup_fails _ _ Hbk) as [Hr Hfile].
  destruct Ha as [[Hexec Ht]|(e' & He' & Ht)]; [congruence|].
  rewrite Ht. cbn [tick_outcome tick_world].
  split; [congruence|]. by rewrite Hfile, checkout_other.
Qed.

(** A pass that passed the guard of line 156 passes it again on any world
    whose pull brings the same candidate. *)
Lemma update_due_again (st : state) (w w2 : World) :
  update_due st (checkout w) = true →
  oracle w2 OpPull = None → remote w2 = remote w →
  oracle w2 (OpRead new_file Bin) = None →
  fingerprint (checkout w2) new_file = fingerprint (checkout w) new_file.
Proof.
  intros Hg Hp Hr Ho. revert Hg. unfold update_due, fingerprint.
  rewrite !checkout_new, Hr. destruct (remote w) as [c|]; [|done].
  replace (oracle (checkout w2) (OpRead new_file Bin)) with (@None fault) by done.
  by destruct (oracle (checkout w) (OpRead new_file Bin)).
Qed.

Lemma announced_validates w : validator_invoked new_file (announced w).
Proof.
  destruct (is_valid_python_reads new_file w) as (r & rest & Hr).
  exists r. unfold announced. rewrite Hr.
  apply list_elem_of_further, elem_of_app. right.
  apply list_elem_of_further, elem_of_app. right. apply list_elem_of_here.
Qed.

Lemma announced_notifies w : notified (announced w).
Proof.
  destruct (send_email_attempts "Client Update Started"
              "The client is updating to a new version." w) as (r & rest & Hr).
  exists "Client Update Started", 0, r. unfold announced. rewrite Hr.
  apply list_elem_of_further, elem_of_app. right.
  apply list_elem_of_further, list_elem_of_here.
Qed.

(** A pass that gets past the comparison and the ledger check announces the
    update and calls the validator. *)
Lemma tick_announces (st : state) (w : World) :
  oracle w OpPull = None → is_Some (remote w) →
  update_due st (checkout w) = true →
  equals_failed (fingerprint (checkout w) new_file) (failed_checksum st) = false →
  (tick_outcome (tick st w) = Rejected ∨ tick_outcome (tick st w) = Restarted
   ∨ ∃ e, tick_outcome (tick st w) = Errored e)
  ∧ validator_invoked new_file (tick_trace (tick st w))
  ∧ notified (tick_trace (tick st w)).
Proof.
  intros Hp [c Hr] Hg Hf.
  assert (Hpre : ∀ t, validator_invoked new_file (announced (checkout w) ++ t)
                      ∧ notified (announced (checkout w) ++ t)).
  { intros t. destruct (announced_validates (checkout w)) as [r Hr1].
    destruct (announced_notifies (checkout w)) as (sb & a & r2 & Hr2).
    split; [exists r|exists sb, a, r2]; apply elem_of_app; by left. }
  destruct (tick_cases st w) as
    [(f & Hp' & _)|[(_ & Hr' & _)|[(c' & _ & _ & Hg' & _)|[(c' & _ & _ & _ & Hf' & _)|
    [(c' & _ & _ & _ & _ & _ & Ht)|(c' & _ & _ & _ & _ & _ & Ha)]]]]];
    try congruence.
  - rewrite Ht. cbn [tick_outcome tick_trace]. split; [by left|]. apply Hpre.
  - destruct Ha as [[_ Ht]|(e & _ & Ht)]; rewrite Ht; cbn [tick_outcome tick_trace].
    + split; [by right; left|]. apply Hpre.
    + split; [by right; right; exists e|]. rewrite <- app_assoc. apply Hpre.
Qed.

(** C5.  When a copy of the apply step raises, the exception reaches the
    loop's handler, which logs it and sleeps; the variables of the supervisor
    are untouched and the ledger is neither written nor changed; and on the
    next pass that pulls the same candidate the update is announced and
    validated again. *)
Theorem failed_apply_is_retried (st : state) (w : World) (src dst : string) (e : exn) :
  EvIO (OpCopy src dst) (Some e) ∈ tick_trace (tick st w) →
  tick_outcome (tick st w) = Errored e
  ∧ tick_state (tick st w) = st
  ∧ ¬ ledger_written (tick_trace (tick st w))
  ∧ files (tick_world (tick st w)) !! FAILED_UPDATE_FILE = files w !! FAILED_UPDATE_FILE
  ∧ (∃ t, tick_trace (tick st w)
          = t ++ [EvLog ERROR (handler_message e); EvSleep CHECK_INTERVAL])
  ∧ (∀ w2, oracle w2 OpPull = None → remote w2 = remote w →
           oracle w2 (OpRead new_file Bin) = None →
           validator_invoked new_file (tick_trace (tick (tick_state (tick st w)) w2))
           ∧ notified (tick_trace (tick (tick_state (tick st w)) w2))
           ∧ tick_outcome (tick (tick_state (tick st w)) w2) ≠ NoChange
           ∧ tick_outcome (tick (tick_state (tick st w)) w2) ≠ Skipped).
Proof.
  intros Hin.
  destruct (tick_cases st w) as
    [(f & _ & Ht)|[(_ & _ & Ht)|[(c & _ & _ & _ & Ht)|[(c & _ & _ & _ & _ & Ht)|
    [(c & _ & _ & _ & _ & _ & Ht)|(c & Hp & Hc & Hg & Hf & Hv & Ha)]]]]];
    try (rewrite Ht in Hin; cbn [tick_trace] in Hin; by trace_inv Hin).
  assert (Hcp : EvIO (OpCopy src dst) (Some e) ∈ trace_of apply_update (checkout w)).
  { destruct Ha as [[_ Ht]|(e' & _ & Ht)]; rewrite Ht in Hin; cbn [tick_trace] in Hin;
      repeat (apply elem_of_app in Hin; destruct Hin as [Hin|Hin]); try done;
      by trace_inv Hin. }
  pose proof (apply_update_copy_fails _ _ _ _ Hcp) as Hr.
  destruct Ha as [[Hexec Ht]|(e' & He' & Ht)]; [congruence|].
  assert (e' = e) as -> by congruence.
  rewrite Ht. cbn [tick_outcome tick_state tick_world tick_trace].
  split; [done|]. split; [done|]. split; [|split; [|split]].
  - intros [r Hw]. repeat (apply elem_of_app in Hw; destruct Hw as [Hw|Hw]);
      by trace_inv Hw.
  - rewrite apply_update_frame by done. by apply checkout_other.
  - by eexists.
  - intros w2 Hp2 Hr2 Ho2.
    pose proof (update_due_again st w w2 Hg Hp2 Hr2 Ho2) as Hfp.
    destruct (tick_announces st w2) as (Hout & Hval & Hnot).
    + done.
    + rewrite Hr2, Hc. by eexists.
    + unfold update_due in *. by rewrite Hfp.
    + by rewrite Hfp.
    + split; [done|]. split; [done|].
      destruct Hout as [-> | [-> | [e2 ->]]]; done.
Qed.

(** The guard of line 156 fails when a fingerprint is missing or the two are
    the same. *)
Lemma update_not_due (st : state) (w : World) :
  fingerprint w new_file = None ∨ current_checksum st = None
  ∨ fingerprint w new_file = current_checksum st →
  update_due st w = false.
Proof.
  unfold update_due. intros [-> | [-> | ->]]; [done|simpl; by rewrite andb_false_r|].
  destruct (current_checksum st) as [h|]; [|done]. simpl.
  rewrite String.eqb_refl. apply andb_false_r.
Qed.

(** C9, as the code has it.  The comparison is between the candidate's
    fingerprint and the fingerprint the supervisor holds in memory.  When the
    pull succeeded and brought a candidate, and either fingerprint is missing
    or the two are equal (as they are on identical files when the fingerprint
    in memory is that of the running file as it is now), the pass is NoChange:
    nothing is notified, the ledger is not written, the log says so, and the
    fingerprint in memory is recomputed from the running file.  A further pass
    on a candidate identical to that running file is NoChange again. *)
Theorem comparing_no_change (st : state) (w : World) :
  oracle w OpPull = None →
  is_Some (remote w) →
  fingerprint (checkout w) new_file = None ∨ current_checksum st = None
  ∨ fingerprint (checkout w) new_file = current_checksum st
  ∨ (∃ X, files w !! current_file = Some X ∧ remote w = Some X
          ∧ current_checksum st = fingerprint w current_file) →
  tick_outcome (tick st w) = NoChange
  ∧ ¬ notified (tick_trace (tick st w))
  ∧ ¬ ledger_written (tick_trace (tick st w))
  ∧ files (tick_world (tick st w)) !! FAILED_UPDATE_FILE = files w !! FAILED_UPDATE_FILE
  ∧ EvLog INFO "No update needed." ∈ tick_trace (tick st w)
  ∧ current_checksum (tick_state (tick st w))
    = fingerprint (tick_world (tick st w)) current_file
  ∧ (∀ X w2, files w !! current_file = Some X →
             oracle w2 OpPull = None → remote w2 = Some X →
             tick_outcome (tick (tick_state (tick st w)) w2) = NoChange).
Proof.
  intros Hp [c Hc] Hcmp.
  assert (Hg : update_due st (checkout w) = false).
  { apply update_not_due.
    destruct Hcmp as [?|[?|[?|(X & HX & Hr & Hs)]]]; auto.
    rewrite Hs. unfold fingerprint. rewrite checkout_new, Hr, HX.
    destruct (oracle (checkout w) (OpRead new_file Bin)); [by left|].
    destruct (oracle w (OpRead current_file Bin)); [by right; left|].
    by right; right. }
  destruct (tick_cases st w) as
    [(f & ? & _)|[(_ & ? & _)|[(c' & _ & _ & _ & Ht)|[(c' & _ & _ & ? & _)|
    [(c' & _ & _ & ? & _)|(c' & _ & _ & ? & _)]]]]]; try congruence.
  rewrite Ht. cbn [tick_outcome tick_state tick_world tick_trace current_checksum].
  split; [done|]. split; [|split; [|split; [|split; [|split]]]].
  - intros (sb & a & r & Hin). by trace_inv Hin.
  - intros (r & Hin). by trace_inv Hin.
  - by apply checkout_other.
  - apply list_elem_of_further, elem_of_app. right. apply list_elem_of_here.
  - done.
  - intros X w2 HX Hp2 Hr2.
    assert (Hg2 : update_due {| current_checksum := fingerprint (checkout w) current_file;
                                failed_checksum := failed_checksum st |} (checkout w2) = false).
    { apply update_not_due. cbn [current_checksum]. unfold fingerprint.
      rewrite checkout_new, Hr2, checkout_other, HX by done.
      destruct (oracle (checkout w2) (OpRead new_file Bin)); [by left|].
      destruct (oracle (checkout w) (OpRead current_file Bin)); [by right; left|].
      by right; right. }
    destruct (tick_cases {| current_checksum := fingerprint (checkout w) current_file;
                            failed_checksum := failed_checksum st |} w2) as
      [(f & ? & _)|[(_ & ? & _)|[(c2 & _ & _ & _ & Ht2)|[(c2 & _ & _ & ? & _)|
      [(c2 & _ & _ & ? & _)|(c2 & _ & _ & ? & _)]]]]]; try congruence.
    by rewrite Ht2.
Qed.

(** C10, as the code has it.  When the write of the ledger raises during a
    pass, [save_failed_update] catches it: the pass is the rejection it would
    have been, the variables are untouched, and the pass ends with the log
    record of the error and the sleep.  On disk, a failure to open the file
    leaves the ledger as it was; a failure after the file was opened leaves
    only the part of the new record that was written. *)
Theorem failed_save_is_contained (st : state) (w : World) (e : exn) :
  EvIO (OpWrite FAILED_UPDATE_FILE) (Some e) ∈ tick_trace (tick st w) →
  tick_outcome (tick st w) = Rejected
  ∧ tick_state (tick st w) = st
  ∧ (∃ t, tick_trace (tick st w)
          = t ++ [EvLog ERROR ("Error saving failed update: " +:+ exn_msg e);
                  EvSleep CHECK_INTERVAL])
  ∧ (∃ t, save_failed_update (fingerprint (checkout w) new_file) (checkout w)
          = (Done tt, tick_world (tick st w), t))
  ∧ (oracle w (OpWrite FAILED_UPDATE_FILE) = Some (Fails e)
     ∧ files (tick_world (tick st w)) !! FAILED_UPDATE_FILE
       = files w !! FAILED_UPDATE_FILE
     ∨ ∃ n, oracle w (OpWrite FAILED_UPDATE_FILE) = Some (FailsAfter n e)
            ∧ files (tick_world (tick st w)) !! FAILED_UPDATE_FILE
              = Some (String.substring 0 n
                        (ledger_record (fingerprint (checkout w) new_file)))).
Proof.
  intros Hin.
  destruct (tick_cases st w) as
    [(f & _ & Ht)|[(_ & _ & Ht)|[(c & _ & _ & _ & Ht)|[(c & _ & _ & _ & _ & Ht)|
    [(c & _ & _ & _ & _ & _ & Ht)|(c & Hp & Hc & Hg & Hf & Hv & Ha)]]]]];
    try (rewrite Ht in Hin; cbn [tick_trace] in Hin; by trace_inv Hin).
  2: { destruct Ha as [[_ Ht]|(e' & _ & Ht)]; rewrite Ht in Hin; cbn [tick_trace] in Hin;
         repeat (apply elem_of_app in Hin; destruct Hin as [Hin|Hin]); try done;
         by trace_inv Hin. }
  rewrite Ht. rewrite Ht in Hin. cbn [tick_outcome tick_state tick_world tick_trace] in *.
  split; [done|]. split; [done|].
  assert (Hsv : EvIO (OpWrite FAILED_UPDATE_FILE) (Some e)
                ∈ trace_of (save_failed_update (fingerprint (checkout w) new_file))
                    (checkout w)).
  { trace_split Hin; try done; by trace_inv Hin. }
  clear Hin. rewrite save_failed_update_trace in Hsv |- *.
  rewrite save_failed_update_run. unfold saved.
  replace (oracle (checkout w) (OpWrite FAILED_UPDATE_FILE))
    with (oracle w (OpWrite FAILED_UPDATE_FILE)) in * by done.
  destruct (oracle w (OpWrite FAILED_UPDATE_FILE)) as [f|] eqn:Ho.
  2: { trace_split Hsv. }
  assert (fault_exn f = e) as He by (trace_split Hsv; congruence).
  split; [|split].
  - exists (announced (checkout w)
            ++ EvLog ERROR "New version has invalid syntax. Aborting update."
            :: trace_of (send_email "Client Update Failed"
                           "New version has invalid syntax. Update aborted.") (checkout w)
            ++ [EvIO (OpWrite FAILED_UPDATE_FILE) (Some e)]).
    rewrite He. by normalize_trace.
  - by eexists.
  - destruct f as [e'|n e']; simpl in He; subst e'.
    + left. split; [done|]. by apply checkout_other.
    + right. exists n. split; [done|]. apply lookup_insert_eq.
Qed.

(** A pass on an unreadable or unparsable candidate that differs from the
    fingerprint in memory and from the failure in memory is a rejection. *)
Lemma tick_rejects (st : state) (w : World) (c : string) :
  oracle w OpPull = None → remote w = Some c →
  oracle w (OpRead new_file Bin) = None →
  truthy (current_checksum st) = true →
  current_checksum st ≠ Some (sha256_hexdigest c) →
  equals_failed (Some (sha256_hexdigest c)) (failed_checksum st) = false →
  verdict (checkout w) new_file = false →
  tick_outcome (tick st w) = Rejected
  ∧ tick_state (tick st w) = st
  ∧ tick_world (tick st w) = saved (Some (sha256_hexdigest c)) (checkout w)
  ∧ validator_invoked new_file (tick_trace (tick st w))
  ∧ notified (tick_trace (tick st w)).
Proof.
  intros Hp Hr Ho Hcur Hne Hf Hv.
  assert (Hfp : fingerprint (checkout w) new_file = Some (sha256_hexdigest c)).
  { unfold fingerprint. rewrite checkout_new, Hr. cbn [checkout oracle]. by rewrite Ho. }
  assert (Hg : update_due st (checkout w) = true).
  { unfold update_due. rewrite Hfp, digest_truthy, Hcur. simpl.
    destruct (current_checksum st) as [h|]; [|done]. simpl.
    destruct (String.eqb_spec (sha256_hexdigest c) h); [congruence|done]. }
  destruct (tick_announces st w) as (_ & Hval & Hnot); [done|by eexists|done|by rewrite Hfp|].
  destruct (tick_cases st w) as
    [(f & ? & _)|[(_ & ? & _)|[(c' & _ & _ & ? & _)|[(c' & _ & _ & _ & ? & _)|
    [(c' & _ & _ & _ & _ & _ & Ht)|(c' & _ & _ & _ & _ & ? & _)]]]]]; try congruence.
  rewrite Ht in Hval, Hnot |- *.
  cbn [tick_outcome tick_state tick_world tick_trace] in *.
  by rewrite <- Hfp.
Qed.

(** C1, on the code.  With nothing failing in the world, a candidate that does
    not parse and whose fingerprint differs from the one in memory and from
    the failure in memory is rejected and its fingerprint is what the ledger
    file then yields; but the variable [failed_checksum] keeps its value, so
    the next pass on the unchanged candidate is a rejection again, with the
    validator called and the notifications sent a second time. *)
Theorem rejected_candidate_is_validated_again
    (st : state) (w : World) (C : string) (e : exn) :
  (∀ o, oracle w o = None) →
  remote w = Some C →
  ast_parse C = Some e →
  truthy (current_checksum st) = true →
  current_checksum st ≠ Some (sha256_hexdigest C) →
  equals_failed (Some (sha256_hexdigest C)) (failed_checksum st) = false →
  tick_outcome (tick st w) = Rejected
  ∧ stored_failure (tick_world (tick st w)) = JString (sha256_hexdigest C)
  ∧ failed_checksum (tick_state (tick st w)) = failed_checksum st
  ∧ tick_outcome (tick (tick_state (tick st w)) (tick_world (tick st w))) = Rejected
  ∧ validator_invoked new_file
      (tick_trace (tick (tick_state (tick st w)) (tick_world (tick st w))))
  ∧ notified (tick_trace (tick (tick_state (tick st w)) (tick_world (tick st w)))).
Proof.
  intros Hcalm Hr He Hcur Hne Hf.
  assert (Hv : ∀ w', remote w' = Some C → verdict (checkout w') new_file = false).
  { intros w' Hr'. unfold verdict. rewrite checkout_new, Hr', He.
    by destruct (oracle (checkout w') (OpRead new_file Text)). }
  destruct (tick_rejects st w C) as (Hout & Hst & Hw & _); auto.
  rewrite Hout, Hst, Hw. unfold saved. cbn [checkout oracle]. rewrite Hcalm.
  split; [done|]. split; [|split; [done|]].
  - unfold stored_failure. cbn [set_file files oracle checkout].
    by rewrite lookup_insert_eq, Hcalm, ledger_roundtrip.
  - set (w2 := set_file FAILED_UPDATE_FILE
                  (ledger_record (Some (sha256_hexdigest C))) (checkout w)).
    assert (Hcalm2 : ∀ o, oracle w2 o = None) by (intros o; apply Hcalm).
    destruct (tick_rejects st w2 C) as (Hout2 & _ & _ & Hval & Hnot); auto.
Qed.

(** C2, on the code.  Of the passes that end as NoChange, Rejected or Skipped,
    only the NoChange pass reaches line 182 and leaves in memory the
    fingerprint of the running file as it is.  A pass that rejects the
    candidate or skips it as the remembered failure ends in [continue]: the
    variables are as before the pass and the running file is not read, let
    alone fingerprinted. *)
Theorem fingerprint_recomputed_only_after_no_change (st : state) (w : World) :
  tick_outcome (tick st w) = NoChange ∨ tick_outcome (tick st w) = Rejected
  ∨ tick_outcome (tick st w) = Skipped →
  (tick_outcome (tick st w) = NoChange
   ∧ current_checksum (tick_state (tick st w))
     = fingerprint (tick_world (tick st w)) current_file)
  ∨ (tick_outcome (tick st w) ≠ NoChange
     ∧ tick_state (tick st w) = st
     ∧ ¬ (∃ m r, EvIO (OpRead current_file m) r ∈ tick_trace (tick st w))).
Proof.
  intros Hout.
  destruct (tick_cases st w) as
    [(f & _ & Ht)|[(_ & _ & Ht)|[(c & _ & _ & _ & Ht)|[(c & _ & _ & _ & _ & Ht)|
    [(c & _ & _ & _ & _ & _ & Ht)|(c & _ & _ & _ & _ & _ & Ha)]]]]];
    try (rewrite Ht in Hout; by destruct Hout as [?|[?|?]]).
  - left. by rewrite Ht.
  - right. rewrite Ht. cbn [tick_outcome tick_state tick_trace].
    split; [done|]. split; [done|]. intros (m & r & Hin). by trace_inv Hin.
  - right. rewrite Ht. cbn [tick_outcome tick_state tick_trace].
    split; [done|]. split; [done|]. intros (m & r & Hin). by trace_inv Hin.
  - destruct Ha as [[_ Ht]|(e & _ & Ht)]; rewrite Ht in Hout;
      by destruct Hout as [?|[?|?]].
Qed.

End Claims.

(** ** Further properties of the code *)

(** *** The notifier, lines 38-58 *)

Lemma smtp_attempts_app t1 t2 : smtp_attempts (t1 ++ t2) = smtp_attempts t1 ++ smtp_attempts t2.
Proof.
  induction t1 as [|e t1 IH]; [done|]. destruct e as [| |[]|]; simpl; by rewrite ?IH.
Qed.

Lemma logged_app l t1 t2 : logged l (t1 ++ t2) = logged l t1 ++ logged l t2.
Proof.
  induction t1 as [|e t1 IH]; [done|]. destruct e; simpl; rewrite ?IH; [|done..].
  by destruct (decide _).
Qed.

Lemma slept_app t1 t2 : slept (t1 ++ t2) = slept t1 + slept t2.
Proof.
  induction t1 as [|e t1 IH]; [done|]. destruct e; simpl; rewrite ?IH; lia.
Qed.

Section Notifier.
Context `{PyLib}.

Lemma send_email_loop_nil subject retries delay w :
  trace_of (send_email_loop subject retries delay []) w
  = [EvLog ERROR "All email attempts failed."].
Proof. done. Qed.

Lemma send_email_loop_sent subject retries delay a rest w :
  oracle w (OpSmtp subject a) = None →
  trace_of (send_email_loop subject retries delay (a :: rest)) w
  = [EvIO (OpSmtp subject a) None; EvLog INFO ("Email sent: " +:+ subject)].
Proof.
  intros Ho. unfold trace_of. cbn [send_email_loop].
  unfold mbind, M_bind, bindM, try_except, smtp_send. by rewrite Ho.
Qed.

Lemma send_email_loop_refused subject retries delay a rest w f :
  oracle w (OpSmtp subject a) = Some f →
  exn_kind_of (fault_exn f) = SMTPAuthenticationError →
  trace_of (send_email_loop subject retries delay (a :: rest)) w
  = [EvIO (OpSmtp subject a) (Some (fault_exn f));
     EvLog ERROR "Email authentication failed. Check SMTP_USER and SMTP_PASS.";
     EvLog ERROR "All email attempts failed."].
Proof.
  intros Ho Hk. unfold trace_of. cbn [send_email_loop].
  unfold mbind, M_bind, bindM, try_except, smtp_send. rewrite Ho. simpl. by rewrite Hk.
Qed.

Lemma send_email_loop_failed subject retries delay a rest w f :
  oracle w (OpSmtp subject a) = Some f →
  exn_kind_of (fault_exn f) ≠ SMTPAuthenticationError →
  trace_of (send_email_loop subject retries delay (a :: rest)) w
  = EvIO (OpSmtp subject a) (Some (fault_exn f))
    :: EvLog ERROR ("Failed to send email (attempt " +:+ pretty (a + 1) +:+ "/"
                    +:+ pretty retries +:+ "): " +:+ exn_msg (fault_exn f))
    :: (if bool_decide (a < retries - 1) then [EvSleep delay] else [])
    ++ trace_of (send_email_loop subject retries delay rest) w.
Proof.
  intros Ho Hk. unfold trace_of. cbn [send_email_loop].
  unfold mbind, M_bind, bindM, try_except, smtp_send. rewrite Ho. simpl.
  destruct (exn_kind_of (fault_exn f)); try done;
    destruct (bool_decide (a < retries - 1)); simpl;
    by rewrite (send_email_loop_run subject retries delay rest w).
Qed.

(** The attempts of the loop started at attempt [a] with [n] attempts left. *)
Lemma send_email_loop_bounded subject retries delay a n w :
  a + n = retries →
  ∃ m, m ≤ n
  ∧ (smtp_attempts (trace_of (send_email_loop subject retries delay (seq a n)) w)).*1
    = seq a m
  ∧ slept (trace_of (send_email_loop subject retries delay (seq a n)) w) ≤ (n - 1) * delay.
Proof.
  revert a. induction n as [|n IH]; intros a Han.
  { exists 0. by rewrite send_email_loop_nil. }
  cbn [seq]. destruct (oracle w (OpSmtp subject a)) as [f|] eqn:Ho.
  2: { exists 1. rewrite (send_email_loop_sent _ _ _ _ _ _ Ho). simpl. split; [lia|].
       split; [done|lia]. }
  destruct (decide (exn_kind_of (fault_exn f) = SMTPAuthenticationError)) as [Hk|Hk].
  { exists 1. rewrite (send_email_loop_refused _ _ _ _ _ _ _ Ho Hk). simpl.
    split; [lia|]. split; [done|lia]. }
  rewrite (send_email_loop_failed _ _ _ _ _ _ _ Ho Hk).
  destruct (IH (S a)) as (m & Hm & Hatt & Hsl); [lia|].
  exists (S m). split; [lia|]. cbn [smtp_attempts slept fmap list_fmap fst].
  rewrite smtp_attempts_app, slept_app, fmap_app, Hatt.
  split.
  - by destruct (bool_decide (a < retries - 1)).
  - destruct (bool_decide_reflect (a < retries - 1)); simpl; [|lia].
    destruct n as [|n']; [lia|]. simpl in *. lia.
Qed.

(** X1.  [send_email] never raises and changes nothing; whatever the mail
    server does it opens at most [retries] SMTP sessions, numbered from 0
    without a gap, all for the subject it was given, and sleeps at most
    [retries - 1] times [delay] seconds in all. *)
Theorem send_email_is_bounded (subject body : string) (retries delay : nat) (w : World) :
  ∃ t, send_email_with subject body retries delay w = (Done tt, w, t)
  ∧ length (smtp_attempts t) ≤ retries
  ∧ (smtp_attempts t).*1 = seq 0 (length (smtp_attempts t))
  ∧ slept t ≤ (retries - 1) * delay
  ∧ ops_in (λ o, ∃ a, o = OpSmtp subject a) t.
Proof.
  exists (trace_of (send_email_with subject body retries delay) w).
  split; [apply send_email_loop_run|].
  destruct (send_email_loop_bounded subject retries delay 0 retries w) as (m & Hm & Ha & Hs);
    [done|].
  unfold send_email_with, trace_of in *.
  assert (Hlen : length (smtp_attempts
            (send_email_loop subject retries delay (seq 0 retries) w).2) = m).
  { rewrite <- (length_fmap fst), Ha. apply length_seq. }
  rewrite Hlen. split; [done|]. split; [done|]. split; [done|].
  apply send_email_loop_ops.
Qed.

(** [k] soft failures in a row, from attempt [a] with [n] attempts left. *)
Lemma send_email_loop_skip subject retries delay w k :
  ∀ a n, a + n = retries → k ≤ n →
  (∀ j, a ≤ j < a + k → fails_softly w subject j) →
  ∃ pre, trace_of (send_email_loop subject retries delay (seq a n)) w
         = pre ++ trace_of (send_email_loop subject retries delay (seq (a + k) (n - k))) w
  ∧ (smtp_attempts pre).*1 = seq a k
  ∧ slept pre = (k `min` (n - 1)) * delay
  ∧ length (logged ERROR pre) = k ∧ logged INFO pre = [].
Proof.
  induction k as [|k IH]; intros a n Han Hk Hfail.
  { exists []. rewrite Nat.add_0_r, Nat.sub_0_r. done. }
  destruct n as [|n]; [lia|]. cbn [seq].
  destruct (Hfail a) as (f & Ho & Hkind); [lia|].
  rewrite (send_email_loop_failed _ _ _ _ _ _ _ Ho Hkind).
  destruct (IH (S a) n) as (pre & Hpre & Hatt & Hsl & Herr & Hinfo);
    [lia|lia|intros j Hj; apply Hfail; lia|].
  rewrite Hpre.
  exists (EvIO (OpSmtp subject a) (Some (fault_exn f))
          :: EvLog ERROR ("Failed to send email (attempt " +:+ pretty (a + 1) +:+ "/"
                          +:+ pretty retries +:+ "): " +:+ exn_msg (fault_exn f))
          :: (if bool_decide (a < retries - 1) then [EvSleep delay] else []) ++ pre).
  replace (a + S k) with (S a + k) by lia. replace (S n - S k) with (n - k) by lia.
  split; [cbn [app]; by rewrite <- app_assoc|].
  cbn [smtp_attempts slept logged fmap list_fmap fst]. cbn [decide decide_rel level_eq_dec].
  rewrite smtp_attempts_app, slept_app, !logged_app, fmap_app, Hatt, Hsl, Hinfo.
  split; [by destruct (bool_decide (a < retries - 1))|].
  split; [|split].
  - destruct (bool_decide_reflect (a < retries - 1)); cbn [slept].
    + assert (S k `min` (S n - 1) = S (k `min` (n - 1))) as -> by lia.
      rewrite Nat.mul_succ_l. lia.
    + assert (n = 0) as -> by lia. assert (k = 0) as -> by lia. done.
  - destruct (bool_decide (a < retries - 1)); simpl; by rewrite Herr.
  - by destruct (bool_decide (a < retries - 1)).
Qed.

(** X2.  When the attempts before attempt [k] fail with anything but an
    authentication error and attempt [k] goes through, [send_email] makes
    exactly the attempts [0..k], sleeps [delay] seconds after each failure,
    and its last word is the record of the mail sent: it does not try again
    and does not report failure. *)
Theorem send_email_stops_when_sent
    (subject body : string) (retries delay : nat) (w : World) (k : nat) :
  k < retries →
  (∀ j, j < k → fails_softly w subject j) →
  oracle w (OpSmtp subject k) = None →
  (smtp_attempts (trace_of (send_email_with subject body retries delay) w)).*1
    = seq 0 (S k)
  ∧ slept (trace_of (send_email_with subject body retries delay) w) = k * delay
  ∧ last (trace_of (send_email_with subject body retries delay) w)
    = Some (EvLog INFO ("Email sent: " +:+ subject))
  ∧ length (logged ERROR (trace_of (send_email_with subject body retries delay) w)) = k
  ∧ logged INFO (trace_of (send_email_with subject body retries delay) w)
    = ["Email sent: " +:+ subject].
Proof.
  intros Hk Hfail Hok. unfold send_email_with.
  destruct (send_email_loop_skip subject retries delay w k 0 retries)
    as (pre & -> & Hatt & Hsl & Herr & Hinfo); [done|lia|intros j Hj; apply Hfail; lia|].
  destruct (retries - k) as [|n] eqn:Hn; [lia|]. cbn [seq].
  rewrite (send_email_loop_sent _ _ _ _ _ _ Hok).
  rewrite smtp_attempts_app, slept_app, !logged_app, fmap_app, Hatt, Hsl, Hinfo, length_app, Herr.
  cbn [smtp_attempts slept logged fmap list_fmap fst length app].
  cbn [decide decide_rel level_eq_dec].
  change (0 :: seq 1 k) with (seq 0 (S k)).
  split; [by rewrite seq_S|]. split; [by rewrite Nat.add_0_r, Nat.min_l by lia|].
  split; [by rewrite last_app|]. split; [simpl; lia|done].
Qed.

(** X3.  An authentication error ends the retries at once: after soft
    failures of the attempts before [k], an authentication error at attempt
    [k] is the last attempt; no sleep follows it and the last record is the
    report that all attempts failed. *)
Theorem send_email_gives_up_when_refused
    (subject body : string) (retries delay : nat) (w : World) (k : nat) (f : fault) :
  k < retries →
  (∀ j, j < k → fails_softly w subject j) →
  oracle w (OpSmtp subject k) = Some f →
  exn_kind_of (fault_exn f) = SMTPAuthenticationError →
  (smtp_attempts (trace_of (send_email_with subject body retries delay) w)).*1
    = seq 0 (S k)
  ∧ slept (trace_of (send_email_with subject body retries delay) w) = k * delay
  ∧ last (trace_of (send_email_with subject body retries delay) w)
    = Some (EvLog ERROR "All email attempts failed.").
Proof.
  intros Hk Hfail Ho Hauth. unfold send_email_with.
  destruct (send_email_loop_skip subject retries delay w k 0 retries)
    as (pre & -> & Hatt & Hsl & _ & _); [done|lia|intros j Hj; apply Hfail; lia|].
  destruct (retries - k) as [|n] eqn:Hn; [lia|]. cbn [seq].
  rewrite (send_email_loop_refused _ _ _ _ _ _ _ Ho Hauth).
  rewrite smtp_attempts_app, slept_app, fmap_app, Hatt, Hsl.
  cbn [smtp_attempts slept fmap list_fmap fst app].
  change (0 :: seq 1 k) with (seq 0 (S k)).
  split; [by rewrite seq_S|]. split; [by rewrite Nat.add_0_r, Nat.min_l by lia|].
  by rewrite last_app.
Qed.

(** X4.  When every attempt fails softly, [send_email] makes all [retries]
    attempts, sleeps between them but not after the last, and ends with the
    report that all attempts failed. *)
Theorem send_email_exhausts_retries
    (subject body : string) (retries delay : nat) (w : World) :
  (∀ j, j < retries → fails_softly w subject j) →
  (smtp_attempts (trace_of (send_email_with subject body retries delay) w)).*1
    = seq 0 retries
  ∧ slept (trace_of (send_email_with subject body retries delay) w)
    = (retries - 1) * delay
  ∧ last (trace_of (send_email_with subject body retries delay) w)
    = Some (EvLog ERROR "All email attempts failed.").
Proof.
  intros Hfail. unfold send_email_with.
  destruct (send_email_loop_skip subject retries delay w retries 0 retries)
    as (pre & -> & Hatt & Hsl & _ & _); [done|lia|intros j Hj; apply Hfail; lia|].
  rewrite Nat.sub_diag. cbn [seq]. rewrite send_email_loop_nil.
  rewrite smtp_attempts_app, slept_app, fmap_app, Hatt, Hsl.
  cbn [smtp_attempts slept fmap list_fmap fst app].
  rewrite !app_nil_r. split; [done|].
  split; [by rewrite Nat.add_0_r, Nat.min_r by lia|]. by rewrite last_app.
Qed.

End Notifier.

(** *** The loop, lines 146-187 *)

Section Loop.
Context `{PyLib}.

(** X5.  When the pull raises, the pass does nothing else: the world and the
    variables are as before, nobody is notified, and the pass logs the error
    (as a failed pull for a [GitCommandError], as an unexpected error for
    anything else) and sleeps. *)
Theorem failed_pull_skips_the_pass (st : state) (w : World) (f : fault) :
  oracle w OpPull = Some f →
  tick_outcome (tick st w) = Errored (fault_exn f)
  ∧ tick_state (tick st w) = st
  ∧ tick_world (tick st w) = w
  ∧ tick_trace (tick st w)
    = [EvIO OpPull (Some (fault_exn f));
       EvLog ERROR ((if decide (exn_kind_of (fault_exn f) = GitCommandError)
                     then "Git pull failed: " else "Unexpected error: ")
                    +:+ exn_msg (fault_exn f));
       EvSleep CHECK_INTERVAL].
Proof.
  intros Hp.
  destruct (tick_cases st w) as
    [(f' & Hp' & Ht)|[(? & _)|[(c & ? & _)|[(c & ? & _)|[(c & ? & _)|(c & ? & _)]]]]];
    try congruence.
  assert (f' = f) as -> by congruence. rewrite Ht.
  cbn [tick_outcome tick_state tick_world tick_trace]. unfold handler_message.
  repeat split. by destruct (exn_kind_of (fault_exn f)).
Qed.

(** X6.  When the pull succeeds but the remote has no client file, the pass
    logs that the update file is missing and sleeps: no fingerprint is taken,
    nobody is notified, the validator is not called, the ledger is not
    written, and the variables and every file but the candidate's are as
    before. *)
Theorem missing_candidate_skips_the_pass (st : state) (w : World) :
  oracle w OpPull = None →
  remote w = None →
  tick_outcome (tick st w) = Missing
  ∧ tick_state (tick st w) = st
  ∧ tick_trace (tick st w)
    = [EvIO OpPull None;
       EvLog ERROR "Update file not found in repo: repo/self_upgrading_client.py";
       EvSleep CHECK_INTERVAL]
  ∧ files (tick_world (tick st w)) !! new_file = None
  ∧ (∀ p, p ≠ new_file → files (tick_world (tick st w)) !! p = files w !! p).
Proof.
  intros Hp Hr.
  destruct (tick_cases st w) as
    [(f' & ? & _)|[(_ & _ & Ht)|[(c & _ & ? & _)|[(c & _ & ? & _)|
    [(c & _ & ? & _)|(c & _ & ? & _)]]]]]; try congruence.
  rewrite Ht. cbn [tick_outcome tick_state tick_world tick_trace].
  split; [done|]. split; [done|]. split; [done|].
  split; [by rewrite checkout_new|]. intros p Hne. by apply checkout_other.
Qed.

(** X7.  A candidate whose fingerprint is the failure the client loaded at
    start is never validated: the pass is a skip (or NoChange, when the
    running fingerprint is the same or missing), with no call of the
    validator, no notification, no write of the ledger, and the running file
    and the backup untouched. *)
Theorem known_failure_is_not_validated (st : state) (w : World) (C : string) :
  oracle w OpPull = None →
  remote w = Some C →
  oracle w (OpRead new_file Bin) = None →
  failed_checksum st = JString (sha256_hexdigest C) →
  (tick_outcome (tick st w) = Skipped ∨ tick_outcome (tick st w) = NoChange)
  ∧ ¬ validator_invoked new_file (tick_trace (tick st w))
  ∧ ¬ notified (tick_trace (tick st w))
  ∧ ¬ ledger_written (tick_trace (tick st w))
  ∧ files (tick_world (tick st w)) !! current_file = files w !! current_file
  ∧ files (tick_world (tick st w)) !! backup = files w !! backup.
Proof.
  intros Hp Hr Ho Hf.
  assert (Hfp : fingerprint (checkout w) new_file = Some (sha256_hexdigest C)).
  { unfold fingerprint. rewrite checkout_new, Hr. cbn [checkout oracle]. by rewrite Ho. }
  assert (Heq : equals_failed (fingerprint (checkout w) new_file) (failed_checksum st)
                = true).
  { rewrite Hfp, Hf. simpl. apply String.eqb_refl. }
  destruct (tick_cases st w) as
    [(f' & ? & _)|[(_ & ? & _)|[(c & _ & _ & _ & Ht)|[(c & _ & _ & _ & _ & Ht)|
    [(c & _ & _ & _ & ? & _)|(c & _ & _ & _ & ? & _)]]]]]; try congruence;
    rewrite Ht; cbn [tick_outcome tick_state tick_world tick_trace].
  - split; [by right|]. split; [intros (r & Hin); by trace_inv Hin|].
    split; [intros (sb & a & r & Hin); by trace_inv Hin|].
    split; [intros (r & Hin); by trace_inv Hin|].
    split; by apply checkout_other.
  - split; [by left|]. split; [intros (r & Hin); by trace_inv Hin|].
    split; [intros (sb & a & r & Hin); by trace_inv Hin|].
    split; [intros (r & Hin); by trace_inv Hin|].
    split; by apply checkout_other.
Qed.

(** X8.  Conversely, a pass skips a candidate only when the pull brought a
    file whose fingerprint was obtained, differs from the running fingerprint
    in memory, and is the string the client found in the ledger at start: no
    ledger, a ledger that is not JSON, or a checksum that is not a string,
    never makes a pass skip. *)
Theorem skip_needs_the_loaded_failure (st : state) (w : World) :
  tick_outcome (tick st w) = Skipped →
  ∃ C, remote w = Some C
  ∧ fingerprint (checkout w) new_file = Some (sha256_hexdigest C)
  ∧ failed_checksum st = JString (sha256_hexdigest C)
  ∧ (∃ h, current_checksum st = Some h ∧ h ≠ sha256_hexdigest C)
  ∧ tick_state (tick st w) = st.
Proof.
  intros Hout.
  destruct (tick_cases st w) as
    [(f' & _ & Ht)|[(_ & _ & Ht)|[(c & _ & _ & _ & Ht)|[(c & Hp & Hr & Hg & Hf & Ht)|
    [(c & _ & _ & _ & _ & _ & Ht)|(c & _ & _ & _ & _ & _ & Ha)]]]]];
    try (rewrite Ht in Hout; discriminate).
  2: { destruct Ha as [[_ Ht]|(e & _ & Ht)]; rewrite Ht in Hout; discriminate. }
  exists c. split; [done|]. revert Hg Hf. unfold update_due, fingerprint.
  rewrite checkout_new, Hr.
  destruct (oracle (checkout w) (OpRead new_file Bin)); [done|].
  destruct (failed_checksum st) as [| | |s| |]; try done.
  destruct (current_checksum st) as [h|]; [|by rewrite andb_false_r].
  cbn [equals_failed checksum_ne]. intros Hg Hf.
  apply String.eqb_eq in Hf as <-.
  split; [done|]. split; [done|]. split; [|by rewrite Ht].
  exists h. split; [done|]. intros ->. rewrite String.eqb_refl in Hg.
  by rewrite andb_false_r in Hg.
Qed.

(** X9.  A candidate that does not parse is never installed: whatever the
    state of the supervisor and whatever fails, the pass does not copy
    anything, does not call [execv], and leaves the running file and the
    backup as they were. *)
Theorem unparsable_candidate_is_never_installed
    (st : state) (w : World) (C : string) (e : exn) :
  remote w = Some C →
  ast_parse C = Some e →
  tick_outcome (tick st w) ≠ Restarted
  ∧ files (tick_world (tick st w)) !! current_file = files w !! current_file
  ∧ files (tick_world (tick st w)) !! backup = files w !! backup
  ∧ ops_in (λ o, (∀ src dst, o ≠ OpCopy src dst) ∧ ∀ p, o ≠ OpExec p)
      (tick_trace (tick st w)).
Proof.
  intros Hr He.
  assert (Hv : verdict (checkout w) new_file = false).
  { unfold verdict. rewrite checkout_new, Hr, He.
    by destruct (oracle (checkout w) (OpRead new_file Text)). }
  assert (Hgc : ∀ p w', ops_in (λ o, (∀ src dst, o ≠ OpCopy src dst) ∧ ∀ q, o ≠ OpExec q)
                          (trace_of (get_checksum p) w')).
  { intros. eapply ops_in_impl; [|apply get_checksum_ops]. by intros o ->. }
  assert (Hse : ∀ sb bd w', ops_in (λ o, (∀ src dst, o ≠ OpCopy src dst) ∧ ∀ q, o ≠ OpExec q)
                              (trace_of (send_email sb bd) w')).
  { intros. eapply ops_in_impl; [|apply send_email_ops]. by intros o [a ->]. }
  assert (Hiv : ∀ p w', ops_in (λ o, (∀ src dst, o ≠ OpCopy src dst) ∧ ∀ q, o ≠ OpExec q)
                          (trace_of (is_valid_python p) w')).
  { intros. eapply ops_in_impl; [|apply is_valid_python_ops]. by intros o ->. }
  assert (Hsv : ∀ c w', ops_in (λ o, (∀ src dst, o ≠ OpCopy src dst) ∧ ∀ q, o ≠ OpExec q)
                          (trace_of (save_failed_update c) w')).
  { intros. eapply ops_in_impl; [|apply save_failed_update_ops]. by intros o ->. }
  destruct (tick_cases st w) as
    [(f' & _ & Ht)|[(_ & _ & Ht)|[(c & _ & _ & _ & Ht)|[(c & _ & _ & _ & _ & Ht)|
    [(c & _ & _ & _ & _ & _ & Ht)|(c & _ & _ & _ & _ & ? & _)]]]]]; try congruence;
    rewrite Ht; cbn [tick_outcome tick_state tick_world tick_trace];
    (split; [done|]).
  - split; [done|]. split; [done|]. ops_auto; by split.
  - rewrite !checkout_other by done. split; [done|]. split; [done|]. ops_auto; by split.
  - rewrite !checkout_other by done. split; [done|]. split; [done|].
    ops_auto; try apply Hgc; by split.
  - rewrite !checkout_other by done. split; [done|]. split; [done|].
    ops_auto; try apply Hgc; by split.
  - assert (Hfr : ∀ p, p ≠ FAILED_UPDATE_FILE → p ≠ new_file →
                       files (saved (fingerprint (checkout w) new_file) (checkout w)) !! p
                       = files w !! p).
    { intros p Hp1 Hp2. rewrite <- (checkout_other w p Hp2). unfold saved.
      destruct (oracle (checkout w) (OpWrite FAILED_UPDATE_FILE)) as [[?|? ?]|];
        cbn [set_file files]; by rewrite ?lookup_insert_ne. }
    rewrite !Hfr by done. split; [done|]. split; [done|].
    unfold announced. ops_auto; try apply Hgc; try apply Hse; try apply Hiv;
      try apply Hsv; by split.
Qed.

(** X10.  Nothing raised inside a pass gets out of it: the pass returns for
    the next one, ends in a [continue], or replaces the process. *)
Theorem iteration_never_raises (st : state) (w : World) :
  (∃ st', (iteration st w).1.1 = Done st')
  ∨ (∃ c, (iteration st w).1.1 = Abrupt (SigContinue c))
  ∨ (iteration st w).1.1 = Abrupt SigExec.
Proof.
  unfold iteration, try_except, mbind, M_bind, bindM, mret, M_ret, retM, sleep, log.
  destruct (loop_body st w) as [[[st'|[e|c|]] w'] t]; simpl; eauto.
  destruct (exn_kind_of e); simpl; eauto.
Qed.

(** Case analysis of [apply_update w] on what the world decides. *)
Ltac apply_paths w :=
  unfold trace_of, apply_update, mbind, M_bind, bindM, path_exists, copy2, execv,
    log, loop_stop, mret, M_ret, retM;
  let b := fresh "b" in let c := fresh "c" in
  destruct (files w !! current_file) as [b|] eqn:Hcur;
  destruct (files w !! new_file) as [c|] eqn:Hnew;
  destruct (oracle w (OpCopy current_file backup)) as [[?|? ?]|] eqn:Hbk;
  destruct (oracle w (OpCopy new_file current_file)) as [[?|? ?]|] eqn:Hins;
  destruct (oracle w (OpExec current_file)) as [?|] eqn:Hex;
  cbn [set_file files oracle remote fst snd app];
  rewrite ?Hcur, ?Hbk;
  cbn [set_file files oracle remote fst snd app];
  rewrite ?(lookup_insert_ne (files w) backup new_file) by done;
  rewrite ?Hnew, ?Hins;
  cbn [set_file files oracle remote fst snd app];
  rewrite ?Hex;
  cbn [set_file files oracle remote fst snd app].

Ltac last_event :=
  repeat (rewrite last_app || rewrite last_cons); simpl.

Ltac mem_cases H :=
  rewrite ?elem_of_cons, ?elem_of_nil in H;
  repeat (destruct H as [H|H]; try discriminate); try done.

Lemma apply_update_install_attempted w R r :
  EvIO (OpCopy new_file current_file) r ∈ trace_of apply_update w →
  files w !! current_file = Some R →
  files (apply_update w).1.2 !! backup = Some R.
Proof.
  intros Hmem HR. revert Hmem. apply_paths w; intros Hmem; mem_cases Hmem; simplify_eq;
    rewrite ?(lookup_insert_ne _ current_file backup) by done;
    by rewrite lookup_insert_eq.
Qed.


Lemma apply_update_without_running w C :
  files w !! current_file = None →
  files w !! new_file = Some C →
  files (apply_update w).1.2 !! backup = files w !! backup
  ∧ (∀ r, EvIO (OpCopy current_file backup) r ∉ trace_of apply_update w)
  ∧ ((apply_update w).1.1 = Abrupt SigExec →
     files (apply_update w).1.2 !! current_file = Some C).
Proof.
  intros Hc Hn. apply_paths w; simplify_eq;
    rewrite ?(lookup_insert_ne _ current_file backup) by done;
    (split; [done|]); (split; [intros r Hmem; mem_cases Hmem|]);
    intros Hr; try discriminate; by rewrite lookup_insert_eq.
Qed.

Lemma apply_update_exec_fails w e :
  EvIO (OpExec current_file) (Some e) ∈ trace_of apply_update w →
  (apply_update w).1.1 = Abrupt (SigRaise e)
  ∧ files (apply_update w).1.2 !! current_file = files w !! new_file
  ∧ (∀ R, files w !! current_file = Some R →
          files (apply_update w).1.2 !! backup = Some R).
Proof.
  apply_paths w; intros Hmem; mem_cases Hmem; simplify_eq;
    (split; [done|]); rewrite lookup_insert_eq; (split; [done|]);
    intros R HR; simplify_eq;
    by rewrite lookup_insert_ne, lookup_insert_eq by done.
Qed.


(** X12.  The backup always precedes the overwrite: in any pass that tried to
    copy the candidate over a running file that was there, whether that copy,
    or [execv] after it, succeeded or not, the backup holds what the running
    file held before the pass. *)
Theorem backup_precedes_every_overwrite (st : state) (w : World) (R : string)
    (r : option exn) :
  EvIO (OpCopy new_file current_file) r ∈ tick_trace (tick st w) →
  files w !! current_file = Some R →
  files (tick_world (tick st w)) !! backup = Some R.
Proof.
  intros Hin HR.
  destruct (tick_cases st w) as
    [(f' & _ & Ht)|[(_ & _ & Ht)|[(c & _ & _ & _ & Ht)|[(c & _ & _ & _ & _ & Ht)|
    [(c & _ & _ & _ & _ & _ & Ht)|(c & _ & _ & _ & _ & _ & Ha)]]]]];
    try (rewrite Ht in Hin; cbn [tick_trace] in Hin; by trace_inv Hin).
  assert (Hcp : EvIO (OpCopy new_file current_file) r
                ∈ trace_of apply_update (checkout w)).
  { destruct Ha as [[_ Ht]|(e' & _ & Ht)]; rewrite Ht in Hin; cbn [tick_trace] in Hin;
      repeat (apply elem_of_app in Hin; destruct Hin as [Hin|Hin]); try done;
      by trace_inv Hin. }
  assert (Hw : tick_world (tick st w) = (apply_update (checkout w)).1.2)
    by (destruct Ha as [[_ Ht]|(e & _ & Ht)]; by rewrite Ht).
  rewrite Hw. apply (apply_update_install_attempted _ R r Hcp).
  by rewrite checkout_other.
Qed.

(** X13.  When the running file is gone (line 174), the update goes ahead
    without a backup: a pass that ends in the replacement of the process has
    not tried the backup copy, has left the backup file as it was, and has put
    the candidate in the running file's place. *)
Theorem missing_running_file_is_replaced (st : state) (w : World) (C : string) :
  files w !! current_file = None →
  remote w = Some C →
  tick_outcome (tick st w) = Restarted →
  files (tick_world (tick st w)) !! current_file = Some C
  ∧ files (tick_world (tick st w)) !! backup = files w !! backup
  ∧ (∀ r, EvIO (OpCopy current_file backup) r ∉ tick_trace (tick st w)).
Proof.
  intros Hcur Hr Hout.
  destruct (tick_cases st w) as
    [(f' & _ & Ht)|[(_ & _ & Ht)|[(c & _ & _ & _ & Ht)|[(c & _ & _ & _ & _ & Ht)|
    [(c & _ & _ & _ & _ & _ & Ht)|(c & _ & _ & _ & _ & _ & Ha)]]]]];
    try (rewrite Ht in Hout; discriminate).
  destruct Ha as [[Hexec Ht]|(e & _ & Ht)]; [|rewrite Ht in Hout; discriminate].
  destruct (apply_update_without_running (checkout w) C) as (Hb & Hno & Hi).
  { by rewrite checkout_other. }
  { by rewrite checkout_new. }
  rewrite Ht. cbn [tick_world tick_trace].
  split; [by apply Hi|]. split; [by rewrite Hb, checkout_other|].
  intros r Hin. apply elem_of_app in Hin as [Hin|Hin]; [by trace_inv Hin|].
  by apply (Hno r).
Qed.

(** X14.  When [execv] raises, the update is on disk but not running: the
    running file holds the candidate, the backup holds the previous running
    file, and the pass ends in the loop's handler with the variables, and so
    the old fingerprint, unchanged. *)
Theorem failed_exec_leaves_the_update_on_disk (st : state) (w : World) (C : string)
    (e : exn) :
  EvIO (OpExec current_file) (Some e) ∈ tick_trace (tick st w) →
  remote w = Some C →
  tick_outcome (tick st w) = Errored e
  ∧ tick_state (tick st w) = st
  ∧ files (tick_world (tick st w)) !! current_file = Some C
  ∧ (∀ R, files w !! current_file = Some R →
          files (tick_world (tick st w)) !! backup = Some R).
Proof.
  intros Hin Hr.
  destruct (tick_cases st w) as
    [(f' & _ & Ht)|[(_ & _ & Ht)|[(c & _ & _ & _ & Ht)|[(c & _ & _ & _ & _ & Ht)|
    [(c & _ & _ & _ & _ & _ & Ht)|(c & _ & _ & _ & _ & _ & Ha)]]]]];
    try (rewrite Ht in Hin; cbn [tick_trace] in Hin; by trace_inv Hin).
  assert (Hex : EvIO (OpExec current_file) (Some e)
                ∈ trace_of apply_update (checkout w)).
  { destruct Ha as [[_ Ht]|(e' & _ & Ht)]; rewrite Ht in Hin; cbn [tick_trace] in Hin;
      repeat (apply elem_of_app in Hin; destruct Hin as [Hin|Hin]); try done;
      by trace_inv Hin. }
  destruct (apply_update_exec_fails _ _ Hex) as (Hres & Hi & Hb).
  destruct Ha as [[Hexec Ht]|(e' & He' & Ht)]; [congruence|].
  assert (e' = e) as -> by congruence.
  rewrite Ht. cbn [tick_outcome tick_state tick_world].
  split; [done|]. split; [done|]. split; [by rewrite Hi, checkout_new|].
  intros R HR. apply Hb. by rewrite checkout_other.
Qed.

Lemma slept_get_checksum p w : slept (trace_of (get_checksum p) w) = 0.
Proof.
  unfold trace_of, get_checksum, try_except, read_file.
  unfold mbind, M_bind, bindM, mret, M_ret, retM, log.
  destruct (files w !! p) as [b|]; simpl; [|done].
  destruct (oracle w (OpRead p Bin)) as [f|]; simpl; [|done].
  by destruct (exn_kind_of (fault_exn f)).
Qed.

Lemma slept_is_valid_python p w : slept (trace_of (is_valid_python p) w) = 0.
Proof. by destruct (is_valid_python_events p w) as (r & l & msg & ->). Qed.

Lemma slept_save_failed_update c w : slept (trace_of (save_failed_update c) w) = 0.
Proof.
  rewrite save_failed_update_trace. by destruct (oracle w (OpWrite FAILED_UPDATE_FILE)).
Qed.

Lemma slept_send_email subject body w : slept (trace_of (send_email subject body) w) ≤ 10.
Proof.
  destruct (send_email_loop_bounded subject 3 5 0 3 w) as (m & _ & _ & Hs); [done|].
  exact Hs.
Qed.

Lemma slept_apply_update w : slept (trace_of apply_update w) = 0.
Proof. by apply_paths w. Qed.

Lemma apply_update_last w :
  (apply_update w).1.1 = Abrupt SigExec →
  last (trace_of apply_update w) = Some (EvIO (OpExec current_file) None).
Proof. by apply_paths w. Qed.

Lemma slept_announced w : slept (announced w) ≤ 10.
Proof.
  unfold announced. cbn [slept]. rewrite slept_app. cbn [slept].
  rewrite !slept_app, slept_get_checksum, slept_is_valid_python.
  pose proof (slept_send_email "Client Update Started"
                "The client is updating to a new version." w). lia.
Qed.

(** X15.  Every pass that does not replace the process ends by sleeping
    [CHECK_INTERVAL] seconds, and sleeps at most 20 seconds more, between the
    attempts of its two notifications; a pass that finds nothing to do, no
    candidate or a known failure sleeps exactly [CHECK_INTERVAL] seconds.  The
    pass that replaces the process ends with [execv] and has slept at most 10
    seconds. *)
Theorem pass_ends_with_the_sleep (st : state) (w : World) :
  (tick_outcome (tick st w) ≠ Restarted →
   last (tick_trace (tick st w)) = Some (EvSleep CHECK_INTERVAL)
   ∧ CHECK_INTERVAL ≤ slept (tick_trace (tick st w)) ≤ CHECK_INTERVAL + 20)
  ∧ (tick_outcome (tick st w) = NoChange ∨ tick_outcome (tick st w) = Missing
     ∨ tick_outcome (tick st w) = Skipped →
     slept (tick_trace (tick st w)) = CHECK_INTERVAL)
  ∧ (tick_outcome (tick st w) = Restarted →
     last (tick_trace (tick st w)) = Some (EvIO (OpExec current_file) None)
     ∧ slept (tick_trace (tick st w)) ≤ 10).
Proof.
  pose proof (slept_announced (checkout w)) as Han.
  pose proof (slept_send_email "Client Update Failed"
                "New version has invalid syntax. Update aborted." (checkout w)) as Hse.
  destruct (tick_cases st w) as
    [(f' & _ & Ht)|[(_ & _ & Ht)|[(c & _ & _ & _ & Ht)|[(c & _ & _ & _ & _ & Ht)|
    [(c & _ & _ & _ & _ & _ & Ht)|(c & _ & _ & _ & _ & _ & Ha)]]]]].
  - rewrite Ht. cbn [tick_outcome tick_trace]. unfold CHECK_INTERVAL.
    split; [intros _; simpl; split; [done|lia]|].
    split; [by intros [?|[?|?]]|done].
  - rewrite Ht. cbn [tick_outcome tick_trace]. unfold CHECK_INTERVAL.
    split; [intros _; simpl; split; [done|lia]|]. split; [done|done].
  - rewrite Ht. cbn [tick_outcome tick_trace]. cbn [slept].
    rewrite !slept_app. cbn [slept]. rewrite !slept_app, !slept_get_checksum.
    unfold CHECK_INTERVAL.
    split; [intros _; split; [|cbn [slept]; lia]|split; [by intros _|done]].
    by last_event.
  - rewrite Ht. cbn [tick_outcome tick_trace]. cbn [slept].
    rewrite !slept_app, !slept_get_checksum. unfold CHECK_INTERVAL.
    split; [intros _; split; [|cbn [slept]; lia]|split; [by intros _|done]].
    by last_event.
  - rewrite Ht. cbn [tick_outcome tick_trace]. rewrite !slept_app. cbn [slept].
    rewrite !slept_app, slept_save_failed_update. unfold CHECK_INTERVAL in *.
    split; [intros _; split; [|cbn [slept]; lia]|split; [by intros [?|[?|?]]|done]].
    by last_event.
  - pose proof (slept_apply_update (checkout w)) as Hap.
    destruct Ha as [[Hexec Ht]|(e & _ & Ht)]; rewrite Ht; cbn [tick_outcome tick_trace];
      rewrite !slept_app, ?Hap; unfold CHECK_INTERVAL in *.
    + split; [done|]. split; [by intros [?|[?|?]]|]. intros _.
      split; [|lia]. rewrite last_app. by rewrite (apply_update_last _ Hexec).
    + split; [intros _; split; [by last_event|cbn [slept]; lia]|].
      split; [by intros [?|[?|?]]|done].
Qed.

Lemma tick_keeps_failed_checksum st w :
  failed_checksum (tick_state (tick st w)) = failed_checksum st.
Proof.
  destruct (tick_cases st w) as
    [(f' & _ & Ht)|[(_ & _ & Ht)|[(c & _ & _ & _ & Ht)|[(c & _ & _ & _ & _ & Ht)|
    [(c & _ & _ & _ & _ & _ & Ht)|(c & _ & _ & _ & _ & _ & Ha)]]]]];
    try by rewrite Ht.
  destruct Ha as [[_ Ht]|(e & _ & Ht)]; by rewrite Ht.
Qed.

(** X16.  However long the loop runs and whatever the world does between
    passes, the failure the client compares candidates with is the one it
    loaded at start: no pass assigns [failed_checksum].  The loop makes at most
    one pass per turn of the world, and a pass that replaces the process is
    the last one. *)
Theorem failed_checksum_is_never_assigned
    (st : state) (w : World) (env : list (World → World)) :
  Forall (λ r, failed_checksum (tick_state r) = failed_checksum st) (passes st w env)
  ∧ length (passes st w env) ≤ length env
  ∧ (∀ i r, passes st w env !! i = Some r → tick_outcome r = Restarted →
            S i = length (passes st w env)).
Proof.
  revert st w. induction env as [|step env IH]; intros st w; [by split; [constructor|]|].
  cbn [passes]. pose proof (tick_keeps_failed_checksum st (step w)) as Hk.
  destruct (IH (tick_state (tick st (step w))) (tick_world (tick st (step w))))
    as (Hall & Hlen & Hlast).
  rewrite Hk in Hall.
  destruct (tick_outcome (tick st (step w))) eqn:Hout;
    (split; [by constructor|]); (split; [simpl; lia|]);
    intros [|i] r Hi Hr; simplify_eq/=; try congruence; try done;
    f_equal; by eapply Hlast.
Qed.

(** X17.  A rejection goes through its steps in order: the start of the
    update is announced, then the candidate is validated, then the failure is
    reported, then the ledger is written; the pass ends with the log record of
    the save and the sleep, and leaves the variables as they were. *)
Theorem rejection_in_order (st : state) (w : World) :
  tick_outcome (tick st w) = Rejected →
  tick_state (tick st w) = st
  ∧ ∃ t1 r1 t2 r2 t3 r3 t4 r4 l msg,
      tick_trace (tick st w)
      = t1 ++ EvIO (OpSmtp "Client Update Started" 0) r1
        :: t2 ++ EvIO (OpRead new_file Text) r2
        :: t3 ++ EvIO (OpSmtp "Client Update Failed" 0) r3
        :: t4 ++ [EvIO (OpWrite FAILED_UPDATE_FILE) r4; EvLog l msg;
                  EvSleep CHECK_INTERVAL].
Proof.
  intros Hout.
  destruct (tick_cases st w) as
    [(f' & _ & Ht)|[(_ & _ & Ht)|[(c & _ & _ & _ & Ht)|[(c & _ & _ & _ & _ & Ht)|
    [(c & _ & _ & _ & _ & _ & Ht)|(c & _ & _ & _ & _ & _ & Ha)]]]]];
    try (rewrite Ht in Hout; discriminate).
  2: { destruct Ha as [[_ Ht]|(e & _ & Ht)]; rewrite Ht in Hout; discriminate. }
  rewrite Ht. cbn [tick_state tick_trace]. split; [done|]. unfold announced.
  destruct (send_email_attempts "Client Update Started"
              "The client is updating to a new version." (checkout w))
    as (r1 & more1 & ->).
  destruct (is_valid_python_events new_file (checkout w)) as (r2 & l2 & msg2 & ->).
  destruct (send_email_attempts "Client Update Failed"
              "New version has invalid syntax. Update aborted." (checkout w))
    as (r3 & more3 & ->).
  rewrite save_failed_update_trace.
  exists (EvIO OpPull None :: trace_of (get_checksum new_file) (checkout w)
          ++ [EvLog INFO "Update detected!"]), r1, more1, r2,
    [EvLog l2 msg2; EvLog ERROR "New version has invalid syntax. Aborting update."],
    r3, more3.
  destruct (oracle (checkout w) (OpWrite FAILED_UPDATE_FILE)) as [f|];
    do 3 eexists; by normalize_trace.
Qed.

End Loop.

Section Restart.
Context `{PyLib}.

Hypothesis hexdigest_length : ∀ b, String.length (sha256_hexdigest b) = 64.

Hypothesis ledger_roundtrip : ∀ b,
  json_loads (ledger_record (Some (sha256_hexdigest b)))
  = inl (JObject [("checksum", JString (sha256_hexdigest b))]).

(** X18.  The ledger does its work across a restart.  With nothing failing in
    the world, after a pass that rejected the candidate a client started
    afresh on the files that pass left loads the candidate's fingerprint from
    the ledger and skips the candidate: no call of the validator, no
    notification, no write of the ledger. *)
Theorem rejection_survives_a_restart (st : state) (w : World) (R C : string) :
  (∀ o, oracle w o = None) →
  files w !! current_file = Some R →
  remote w = Some C →
  sha256_hexdigest R ≠ sha256_hexdigest C →
  tick_outcome (tick st w) = Rejected →
  (startup (tick_world (tick st w))).1.1 = Done (booted (tick_world (tick st w)))
  ∧ failed_checksum (booted (tick_world (tick st w))) = JString (sha256_hexdigest C)
  ∧ tick_outcome (tick (booted (tick_world (tick st w))) (tick_world (tick st w)))
    = Skipped
  ∧ ¬ validator_invoked new_file
        (tick_trace (tick (booted (tick_world (tick st w))) (tick_world (tick st w))))
  ∧ ¬ notified
        (tick_trace (tick (booted (tick_world (tick st w))) (tick_world (tick st w))))
  ∧ ¬ ledger_written
        (tick_trace (tick (booted (tick_world (tick st w))) (tick_world (tick st w)))).
Proof.
  intros Hcalm HR Hr Hne Hout.
  assert (Hfp : fingerprint (checkout w) new_file = Some (sha256_hexdigest C)).
  { unfold fingerprint. rewrite checkout_new, Hr. cbn [checkout oracle]. by rewrite Hcalm. }
  assert (Hw : tick_world (tick st w)
               = set_file FAILED_UPDATE_FILE (ledger_record (Some (sha256_hexdigest C)))
                   (checkout w)).
  { destruct (tick_cases st w) as
      [(f' & _ & Ht)|[(_ & _ & Ht)|[(c & _ & _ & _ & Ht)|[(c & _ & _ & _ & _ & Ht)|
      [(c & _ & _ & _ & _ & _ & Ht)|(c & _ & _ & _ & _ & _ & Ha)]]]]];
      try (rewrite Ht in Hout; discriminate).
    2: { destruct Ha as [[_ Ht]|(e & _ & Ht)]; rewrite Ht in Hout; discriminate. }
    rewrite Ht. cbn [tick_world]. rewrite Hfp. unfold saved. cbn [checkout oracle].
    by rewrite Hcalm. }
  rewrite Hw.
  set (w' := set_file FAILED_UPDATE_FILE (ledger_record (Some (sha256_hexdigest C)))
               (checkout w)).
  assert (Hcalm' : ∀ o, oracle w' o = None) by (intros o; apply Hcalm).
  assert (Hcalm'' : ∀ o, oracle (checkout w') o = None) by (intros o; apply Hcalm).
  assert (Hr' : remote w' = Some C) by done.
  assert (Hst : stored_failure w' = JString (sha256_hexdigest C)).
  { unfold stored_failure, w'. cbn [set_file files oracle checkout].
    by rewrite lookup_insert_eq, Hcalm, ledger_roundtrip. }
  assert (Hcur : fingerprint w' current_file = Some (sha256_hexdigest R)).
  { unfold fingerprint, w'. cbn [set_file files oracle checkout].
    rewrite lookup_insert_ne by done.
    replace (match remote w with
             | Some c => <[new_file:=c]> (files w)
             | None => delete new_file (files w)
             end !! current_file) with (files (checkout w) !! current_file) by done.
    by rewrite checkout_other, HR, Hcalm. }
  assert (Hfp' : fingerprint (checkout w') new_file = Some (sha256_hexdigest C)).
  { unfold fingerprint. by rewrite checkout_new, Hr', Hcalm''. }
  split; [by rewrite startup_run|]. split; [exact Hst|].
  destruct (tick_cases (booted w') w') as
    [(f' & ? & _)|[(_ & ? & _)|[(c & _ & _ & Hg & _)|[(c & _ & _ & _ & _ & Ht)|
    [(c & _ & _ & _ & Hf & _)|(c & _ & _ & _ & Hf & _)]]]]]; try congruence.
  - exfalso. revert Hg. unfold update_due. cbn [booted current_checksum].
    rewrite Hfp', Hcur, !(digest_truthy hexdigest_length). cbn [checksum_ne andb].
    destruct (String.eqb_spec (sha256_hexdigest C) (sha256_hexdigest R)); [congruence|done].
  - rewrite Ht. cbn [tick_outcome tick_trace]. split; [done|].
    split; [intros (r & Hin); by trace_inv Hin|].
    split; [intros (sb & a & r & Hin); by trace_inv Hin|].
    intros (r & Hin); by trace_inv Hin.
  - exfalso. revert Hf. cbn [booted failed_checksum]. rewrite Hfp', Hst. simpl.
    by rewrite String.eqb_refl.
  - exfalso. revert Hf. cbn [booted failed_checksum]. rewrite Hfp', Hst. simpl.
    by rewrite String.eqb_refl.
Qed.

End Restart.

(** *** Start-up, lines 112-144 *)

Lemma connect_attempts_app t1 t2 :
  connect_attempts (t1 ++ t2) = connect_attempts t1 ++ connect_attempts t2.
Proof.
  induction t1 as [|e t1 IH]; [done|]. destruct e as [[]|]; simpl; by rewrite ?IH.
Qed.

Lemma boot_slept_app t1 t2 : boot_slept (t1 ++ t2) = boot_slept t1 + boot_slept t2.
Proof.
  induction t1 as [|e t1 IH]; [done|]. destruct e as [|[]]; simpl; rewrite ?IH; lia.
Qed.

Lemma connect_loop_connects h retries a rest :
  connects h a →
  connect_loop h retries (a :: rest)
  = (None, [BootIO (OpConnect a) None; BootIO (OpLoopStart a) None]).
Proof. intros [Hc Hl]. cbn [connect_loop]. by rewrite Hc, Hl. Qed.

(** A failed attempt: what was tried, then the record of the failure. *)
Lemma connect_loop_fails h retries a rest :
  ¬ connects h a →
  ∃ pre, connect_attempts pre = [a] ∧ boot_slept pre = 0 ∧ Forall connecting pre
  ∧ connect_loop h retries (a :: rest)
    = if bool_decide (a < retries - 1) then
        ((connect_loop h retries rest).1,
         pre ++ BootEv (EvSleep 5) :: (connect_loop h retries rest).2)
      else (Some 1, pre ++ [BootEv (EvLog CRITICAL "Max retries reached. Exiting.")]).
Proof.
  intros Hno. cbn [connect_loop]. unfold connects in Hno.
  destruct (host_oracle h (OpConnect a)) as [e|] eqn:Hc.
  - eexists. split; [|split; [|split; [|reflexivity]]]; [done|done|].
    repeat constructor.
  - destruct (host_oracle h (OpLoopStart a)) as [e|] eqn:Hl; [|by destruct Hno].
    eexists. split; [|split; [|split; [|reflexivity]]]; [done|done|].
    repeat constructor.
Qed.

(** [k] failed attempts in a row, from attempt [a] with [n] attempts left,
    none of them the last. *)
Lemma connect_loop_skip h retries k :
  ∀ a n, a + n = retries → k < n →
  (∀ j, a ≤ j < a + k → ¬ connects h j) →
  ∃ pre, connect_attempts pre = seq a k ∧ boot_slept pre = 5 * k ∧ Forall connecting pre
  ∧ connect_loop h retries (seq a n)
    = ((connect_loop h retries (seq (a + k) (n - k))).1,
       pre ++ (connect_loop h retries (seq (a + k) (n - k))).2).
Proof.
  induction k as [|k IH]; intros a n Han Hk Hfail.
  { exists []. rewrite Nat.add_0_r, Nat.sub_0_r. repeat split; [constructor|].
    by destruct (connect_loop h retries (seq a n)). }
  destruct n as [|n]; [lia|]. cbn [seq].
  destruct (connect_loop_fails h retries a (seq (S a) n)) as (p1 & Ha1 & Hs1 & Hc1 & ->).
  { apply Hfail. lia. }
  rewrite bool_decide_true by lia.
  destruct (IH (S a) n) as (pre & Hatt & Hsl & Hcon & ->);
    [lia|lia|intros j Hj; apply Hfail; lia|].
  exists (p1 ++ BootEv (EvSleep 5) :: pre).
  replace (a + S k) with (S a + k) by lia. replace (S n - S k) with (n - k) by lia.
  rewrite connect_attempts_app, boot_slept_app, Ha1, Hs1. cbn [connect_attempts boot_slept].
  rewrite Hatt, Hsl. split; [done|]. split; [lia|].
  split; [apply Forall_app; split; [done|by constructor]|].
  cbn [fst snd]. by rewrite <- app_assoc.
Qed.

Section BootProperties.
Context `{PyLib}.

(** X19.  When none of the five connection attempts succeeds, start-up ends
    in [exit(1)]: it has made exactly the attempts 0 to 4, slept five seconds
    after each but the last, and its last word is the CRITICAL record; the
    repository is neither cloned nor opened, no file is read, and the loop is
    never entered. *)
Theorem boot_gives_up_without_connection (h : Host) (w : World) :
  host_oracle h OpTlsSet = None →
  (∀ k, k < max_retries → ¬ connects h k) →
  ∃ t, boot h w = (Exit 1, w, BootIO OpTlsSet None :: t)
  ∧ connect_attempts t = seq 0 max_retries
  ∧ boot_slept t = 20
  ∧ last t = Some (BootEv (EvLog CRITICAL "Max retries reached. Exiting."))
  ∧ Forall connecting t.
Proof.
  intros Htls Hfail. unfold boot. rewrite Htls.
  destruct (connect_loop_skip h max_retries 4 0 max_retries) as (pre & Hatt & Hsl & Hcon & ->);
    [done|unfold max_retries; lia|intros j Hj; apply Hfail; unfold max_retries; lia|].
  change (seq (0 + 4) (max_retries - 4)) with [4].
  destruct (connect_loop_fails h max_retries 4 []) as (p1 & Ha1 & Hs1 & Hc1 & ->).
  { apply Hfail. unfold max_retries. lia. }
  rewrite bool_decide_false by (unfold max_retries; lia). cbn [fst snd].
  eexists. split; [reflexivity|].
  rewrite !connect_attempts_app, !boot_slept_app, Hatt, Hsl, Ha1, Hs1.
  split; [done|]. split; [done|]. split; [by rewrite !app_assoc, last_snoc|].
  repeat (apply Forall_app; split); try done. by repeat constructor.
Qed.

(** X20.  When attempt [k] is the first to connect, start-up makes exactly the
    attempts 0 to [k] and sleeps five seconds after each failure; with the
    repository directory in place and [git.Repo] not raising it then enters
    the loop with the fingerprint of the running file and the failure read
    from the ledger, having changed nothing. *)
Theorem boot_connects_at_first_success (h : Host) (w : World) (k : nat) :
  host_oracle h OpTlsSet = None →
  k < max_retries →
  (∀ j, j < k → ¬ connects h j) →
  connects h k →
  repo_present h = true →
  host_oracle h OpOpenRepo = None →
  (boot h w).1.1 = Ready (booted w)
  ∧ (boot h w).1.2 = w
  ∧ connect_attempts (boot h w).2 = seq 0 (S k)
  ∧ boot_slept (boot h w).2 = 5 * k.
Proof.
  intros Htls Hk Hfail Hok Hrepo Hopen. unfold boot, clone_repo. rewrite Htls, Hrepo, Hopen.
  destruct (connect_loop_skip h max_retries k 0 max_retries) as (pre & Hatt & Hsl & Hcon & ->);
    [done|done|intros j Hj; apply Hfail; lia|].
  destruct (max_retries - k) as [|n] eqn:Hn; [lia|]. cbn [seq].
  rewrite (connect_loop_connects _ _ _ _ Hok). cbn [fst snd].
  rewrite startup_run. cbn [fst snd connect_attempts boot_slept].
  rewrite !connect_attempts_app, !boot_slept_app, Hatt, Hsl.
  cbn [connect_attempts boot_slept app].
  assert (Hq : ∀ t, connect_attempts (map BootEv t) = []
                    ∧ boot_slept (map BootEv t) = slept t).
  { induction t as [|e t [IH1 IH2]]; [done|]. destruct e; simpl; by rewrite ?IH1, ?IH2. }
  destruct (Hq (trace_of startup w)) as [-> ->].
  assert (Hs0 : slept (trace_of startup w) = 0).
  { unfold trace_of, startup, mbind, M_bind, bindM, mret, M_ret, retM.
    rewrite get_checksum_run, load_failed_update_run. cbn [fst snd].
    rewrite slept_app, slept_get_checksum, app_nil_r.
    unfold trace_of, load_failed_update, try_except, path_exists, read_file.
    unfold json_load, dict_get, mbind, M_bind, bindM, mret, M_ret, retM, log, raise.
    destruct (files w !! FAILED_UPDATE_FILE) as [text|] eqn:Hfile; simpl; [|done].
    rewrite Hfile.
    destruct (oracle w (OpRead FAILED_UPDATE_FILE Text)) as [f|]; simpl.
    - by destruct (exn_kind_of (fault_exn f)).
    - destruct (json_loads text) as [[]|e]; simpl; try done.
      by destruct (exn_kind_of e). }
  rewrite Hs0, app_nil_r. change (0 :: seq 1 k) with (seq 0 (S k)).
  split; [done|]. split; [done|]. split; [by rewrite seq_S|lia].
Qed.

(** X21.  The loop is entered only connected: if start-up reaches the loop,
    [tls_set] did not raise, one of the five attempts connected, the
    repository was there or was cloned, [git.Repo] did not raise, and the
    variables are the fingerprint of the running file and the failure in the
    ledger as they are in the world start-up leaves. *)
Theorem boot_ready_means_connected (h : Host) (w : World) (st : state) :
  (boot h w).1.1 = Ready st →
  host_oracle h OpTlsSet = None
  ∧ (∃ k, k < max_retries ∧ connects h k)
  ∧ (repo_present h = false → host_oracle h OpClone = None)
  ∧ host_oracle h OpOpenRepo = None
  ∧ (boot h w).1.2 = (if repo_present h then w else checkout w)
  ∧ st = booted (boot h w).1.2.
Proof.
  unfold boot. destruct (host_oracle h OpTlsSet) as [e|] eqn:Htls; [done|].
  assert (Hdec : (∃ k, k < max_retries ∧ connects h k)
                 ∨ ¬ (∃ k, k < max_retries ∧ connects h k)).
  { destruct (decide (Exists (connects h) (seq 0 max_retries))) as [Hex|Hex].
    - left. apply Exists_exists in Hex as (k & Hk%elem_of_seq & Hc). exists k.
      split; [lia|done].
    - right. intros (k & Hk & Hc). apply Hex, Exists_exists. exists k.
      split; [apply elem_of_seq; lia|done]. }
  destruct Hdec as [Hk|Hno].
  2: { destruct (connect_loop_skip h max_retries 4 0 max_retries)
         as (pre & _ & _ & _ & ->);
         [done|unfold max_retries; lia|
          intros j Hj Hc; apply Hno; exists j; split; [unfold max_retries; lia|done]|].
       change (seq (0 + 4) (max_retries - 4)) with [4].
       destruct (connect_loop_fails h max_retries 4 []) as (p1 & _ & _ & _ & ->).
       { intros Hc. apply Hno. exists 4. split; [unfold max_retries; lia|done]. }
       rewrite bool_decide_false by (unfold max_retries; lia). done. }
  destruct (connect_loop h max_retries (seq 0 max_retries)) as [[code|] t1]; [done|].
  unfold clone_repo. destruct (repo_present h).
  - destruct (host_oracle h OpOpenRepo) as [e|]; [done|].
    rewrite startup_run. cbn [fst snd]. intros [= <-]. by repeat split.
  - destruct (host_oracle h OpClone) as [e|]; [by destruct (exn_kind_of e)|].
    destruct (host_oracle h OpOpenRepo) as [e|]; [done|].
    rewrite startup_run. cbn [fst snd]. intros [= <-]. by repeat split.
Qed.


End BootProperties.

(** ** Concrete runs *)

Module Runs.
Import Ref.

Ltac by_computation := vm_compute; reflexivity.
Ltac in_trace := refine (bool_decide_unpack _ _); vm_compute; exact I.

Lemma rejected_candidate_is_validated_again_witness :
  (∀ o, oracle w_bad o = None)
  ∧ remote w_bad = Some "x = (1"
  ∧ ast_parse "x = (1" = Some (Exn SyntaxError "unbalanced parenthesis")
  ∧ truthy (current_checksum (booted w_bad)) = true
  ∧ current_checksum (booted w_bad) ≠ Some (sha256_hexdigest "x = (1")
  ∧ equals_failed (Some (sha256_hexdigest "x = (1")) (failed_checksum (booted w_bad)) = false
  ∧ tick_outcome (tick (booted w_bad) w_bad) = Rejected
  ∧ stored_failure (tick_world (tick (booted w_bad) w_bad))
    = JString (sha256_hexdigest "x = (1")
  ∧ tick_outcome (tick (tick_state (tick (booted w_bad) w_bad))
                    (tick_world (tick (booted w_bad) w_bad))) = Rejected
  ∧ validator_invoked new_file
      (tick_trace (tick (tick_state (tick (booted w_bad) w_bad))
                     (tick_world (tick (booted w_bad) w_bad))))
  ∧ notified
      (tick_trace (tick (tick_state (tick (booted w_bad) w_bad))
                     (tick_world (tick (booted w_bad) w_bad)))).
Proof.
  assert (H1 : ∀ o, oracle w_bad o = None) by (intros o; reflexivity).
  assert (H2 : remote w_bad = Some "x = (1") by reflexivity.
  assert (H3 : ast_parse "x = (1" = Some (Exn SyntaxError "unbalanced parenthesis"))
    by by_computation.
  assert (H4 : truthy (current_checksum (booted w_bad)) = true) by by_computation.
  assert (H5 : current_checksum (booted w_bad) ≠ Some (sha256_hexdigest "x = (1"))
    by (vm_compute; discriminate).
  assert (H6 : equals_failed (Some (sha256_hexdigest "x = (1"))
                 (failed_checksum (booted w_bad)) = false) by by_computation.
  destruct (rejected_candidate_is_validated_again (H:=lib) RefFacts.digest_length
              RefFacts.ledger_roundtrip (booted w_bad) w_bad "x = (1" _ H1 H2 H3 H4 H5 H6)
    as (C1 & C2 & _ & C3 & C4 & C5).
  exact (conj H1 (conj H2 (conj H3 (conj H4 (conj H5 (conj H6
           (conj C1 (conj C2 (conj C3 (conj C4 C5)))))))))).
Defined.

Lemma fingerprint_recomputed_only_after_no_change_witness :
  (tick_outcome (tick (booted w_bad) w_replaced) = NoChange
   ∨ tick_outcome (tick (booted w_bad) w_replaced) = Rejected
   ∨ tick_outcome (tick (booted w_bad) w_replaced) = Skipped)
  ∧ tick_outcome (tick (booted w_bad) w_replaced) = Rejected
  ∧ tick_state (tick (booted w_bad) w_replaced) = booted w_bad
  ∧ current_checksum (tick_state (tick (booted w_bad) w_replaced))
    ≠ fingerprint (tick_world (tick (booted w_bad) w_replaced)) current_file.
Proof.
  assert (H0 : tick_outcome (tick (booted w_bad) w_replaced) = Rejected) by by_computation.
  assert (H1 : tick_outcome (tick (booted w_bad) w_replaced) = NoChange
               ∨ tick_outcome (tick (booted w_bad) w_replaced) = Rejected
               ∨ tick_outcome (tick (booted w_bad) w_replaced) = Skipped)
    by (right; left; exact H0).
  destruct (fingerprint_recomputed_only_after_no_change (booted w_bad) w_replaced H1)
    as [[C0 _]|(_ & C1 & _)]; [rewrite H0 in C0; discriminate C0|].
  split; [exact H1|]. split; [exact H0|]. split; [exact C1|].
  rewrite C1. vm_compute. discriminate.
Defined.

Lemma successful_apply_backs_up_then_installs_witness :
  tick_outcome (tick (booted w_good) w_good) = Restarted
  ∧ files w_good !! current_file = Some "x = 1"
  ∧ remote w_good = Some "x = (2)"
  ∧ files (tick_world (tick (booted w_good) w_good)) !! backup = Some "x = 1"
  ∧ files (tick_world (tick (booted w_good) w_good)) !! current_file = Some "x = (2)".
Proof.
  assert (H1 : tick_outcome (tick (booted w_good) w_good) = Restarted) by by_computation.
  assert (H2 : files w_good !! current_file = Some "x = 1") by by_computation.
  assert (H3 : remote w_good = Some "x = (2)") by reflexivity.
  destruct (successful_apply_backs_up_then_installs (booted w_good) w_good _ _ H1 H2 H3)
    as (C1 & C2 & _).
  exact (conj H1 (conj H2 (conj H3 (conj C1 C2)))).
Defined.

Lemma failed_backup_keeps_running_file_witness :
  EvIO (OpCopy current_file backup) (Some disk_full)
    ∈ tick_trace (tick (booted w_backup_fails) w_backup_fails)
  ∧ tick_outcome (tick (booted w_backup_fails) w_backup_fails) = Errored disk_full
  ∧ files (tick_world (tick (booted w_backup_fails) w_backup_fails)) !! current_file
    = files w_backup_fails !! current_file.
Proof.
  assert (H1 : EvIO (OpCopy current_file backup) (Some disk_full)
               ∈ tick_trace (tick (booted w_backup_fails) w_backup_fails)) by in_trace.
  split; [exact H1|].
  exact (failed_backup_keeps_running_file (booted w_backup_fails) w_backup_fails disk_full H1).
Defined.

Lemma failed_apply_is_retried_witness :
  EvIO (OpCopy new_file current_file) (Some disk_full)
    ∈ tick_trace (tick (booted w_install_fails) w_install_fails)
  ∧ tick_outcome (tick (booted w_install_fails) w_install_fails) = Errored disk_full
  ∧ tick_state (tick (booted w_install_fails) w_install_fails) = booted w_install_fails
  ∧ ¬ ledger_written (tick_trace (tick (booted w_install_fails) w_install_fails))
  ∧ validator_invoked new_file
      (tick_trace (tick (tick_state (tick (booted w_install_fails) w_install_fails))
                     (tick_world (tick (booted w_install_fails) w_install_fails)))).
Proof.
  assert (H1 : EvIO (OpCopy new_file current_file) (Some disk_full)
               ∈ tick_trace (tick (booted w_install_fails) w_install_fails)) by in_trace.
  destruct (failed_apply_is_retried (booted w_install_fails) w_install_fails _ _ _ H1)
    as (C1 & C2 & C3 & _ & _ & C4).
  destruct (C4 (tick_world (tick (booted w_install_fails) w_install_fails)))
    as (C5 & _); [by_computation..|].
  exact (conj H1 (conj C1 (conj C2 (conj C3 C5)))).
Defined.

Lemma get_checksum_deterministic_witness :
  (∀ b, String.length (sha256_hexdigest b) = 64)
  ∧ fingerprint (tick_world (tick (booted w_same) w_same)) current_file
    = Some (sha256_hexdigest "x = 1")
  ∧ fingerprint (tick_world (tick (booted w_same) w_same)) new_file
    = fingerprint (tick_world (tick (booted w_same) w_same)) current_file
  ∧ fingerprint w_same new_file = None.
Proof.
  split; [exact RefFacts.digest_length|].
  destruct (get_checksum_deterministic (H:=lib) RefFacts.digest_length current_file new_file
              (tick_world (tick (booted w_same) w_same))
              (tick_world (tick (booted w_same) w_same)))
    as (_ & C1 & _).
  destruct (C1 "x = 1") as [C2 C3]; [by_computation..|].
  destruct (get_checksum_deterministic (H:=lib) RefFacts.digest_length new_file new_file
              w_same w_same) as (_ & _ & C4 & _).
  split; [exact C2|]. split; [exact C3|]. apply C4. left. by_computation.
Defined.

Lemma ledger_single_record_witness :
  (∀ b, json_loads (ledger_record (Some (sha256_hexdigest b)))
        = inl (JObject [("checksum", JString (sha256_hexdigest b))]))
  ∧ stored_failure w_bad = JNull
  ∧ files (saved (Some (sha256_hexdigest "x = (1")) w_ledger_full) !! FAILED_UPDATE_FILE
    = Some ""
  ∧ files (saved (Some (sha256_hexdigest "x = (1")) (checkout w_bad)) !! FAILED_UPDATE_FILE
    = Some (ledger_record (Some (sha256_hexdigest "x = (1")))
  ∧ stored_failure (saved (Some (sha256_hexdigest "x = (1")) (checkout w_bad))
    = JString (sha256_hexdigest "x = (1").
Proof.
  split; [exact RefFacts.ledger_roundtrip|].
  destruct (ledger_single_record (H:=lib) RefFacts.ledger_roundtrip (checkout w_bad)
              (Some (sha256_hexdigest "x = (1"))) as (_ & _ & _ & _ & _ & C1).
  destruct C1 as (_ & _ & C2 & _ & C3); [reflexivity|].
  destruct (ledger_single_record (H:=lib) RefFacts.ledger_roundtrip w_bad None)
    as (_ & C4 & _).
  split; [apply C4; by_computation|]. split; [by_computation|].
  split; [exact C2|]. by apply (C3 "x = (1").
Defined.

Lemma comparing_no_change_witness :
  oracle w_same OpPull = None
  ∧ is_Some (remote w_same)
  ∧ files w_same !! current_file = Some "x = 1"
  ∧ remote w_same = Some "x = 1"
  ∧ current_checksum (booted w_same) = fingerprint w_same current_file
  ∧ tick_outcome (tick (booted w_same) w_same) = NoChange
  ∧ ¬ notified (tick_trace (tick (booted w_same) w_same))
  ∧ ¬ ledger_written (tick_trace (tick (booted w_same) w_same))
  ∧ tick_outcome (tick (tick_state (tick (booted w_same) w_same))
                    (tick_world (tick (booted w_same) w_same))) = NoChange.
Proof.
  assert (H1 : oracle w_same OpPull = None) by reflexivity.
  assert (H2 : is_Some (remote w_same)) by (by eexists).
  assert (H3 : files w_same !! current_file = Some "x = 1") by by_computation.
  assert (H4 : remote w_same = Some "x = 1") by reflexivity.
  assert (H5 : current_checksum (booted w_same) = fingerprint w_same current_file)
    by reflexivity.
  destruct (comparing_no_change (booted w_same) w_same H1 H2) as (C1 & C2 & C3 & _ & _ & _ & C4).
  { right; right; right. exists "x = 1". by repeat split. }
  split; [exact H1|]. split; [exact H2|]. split; [exact H3|]. split; [exact H4|].
  split; [exact H5|]. split; [exact C1|]. split; [exact C2|]. split; [exact C3|].
  apply (C4 "x = 1"); [exact H3|by_computation..].
Defined.

Lemma failed_save_is_contained_witness :
  EvIO (OpWrite FAILED_UPDATE_FILE) (Some denied)
    ∈ tick_trace (tick (booted w_ledger_denied) w_ledger_denied)
  ∧ tick_outcome (tick (booted w_ledger_denied) w_ledger_denied) = Rejected
  ∧ tick_state (tick (booted w_ledger_denied) w_ledger_denied) = booted w_ledger_denied
  ∧ files (tick_world (tick (booted w_ledger_denied) w_ledger_denied)) !! FAILED_UPDATE_FILE
    = Some old_record.
Proof.
  assert (H1 : EvIO (OpWrite FAILED_UPDATE_FILE) (Some denied)
               ∈ tick_trace (tick (booted w_ledger_denied) w_ledger_denied)) by in_trace.
  destruct (failed_save_is_contained (booted w_ledger_denied) w_ledger_denied denied H1)
    as (C1 & C2 & _ & _ & C3).
  split; [exact H1|]. split; [exact C1|]. split; [exact C2|].
  destruct C3 as [[_ C3]|(n & Hn & _)]; [|discriminate Hn].
  rewrite C3. by_computation.
Defined.

(** C9 as stated fails.  After a pass on [w_exec_fails], in which both copies
    succeed and [execv] raises, the running file and the candidate are the
    same file and both fingerprints are there; the next pass still detects an
    update and notifies, because the fingerprint in memory is the one taken at
    startup. *)
Lemma identical_files_update_detected :
  files (tick_world (tick (booted w_exec_fails) w_exec_fails)) !! current_file
    = Some "x = (2)"
  ∧ files (checkout (tick_world (tick (booted w_exec_fails) w_exec_fails))) !! new_file
    = Some "x = (2)"
  ∧ fingerprint (checkout (tick_world (tick (booted w_exec_fails) w_exec_fails))) current_file
    = Some (sha256_hexdigest "x = (2)")
  ∧ fingerprint (checkout (tick_world (tick (booted w_exec_fails) w_exec_fails))) new_file
    = Some (sha256_hexdigest "x = (2)")
  ∧ tick_outcome (tick (tick_state (tick (booted w_exec_fails) w_exec_fails))
                    (tick_world (tick (booted w_exec_fails) w_exec_fails))) ≠ NoChange
  ∧ notified (tick_trace (tick (tick_state (tick (booted w_exec_fails) w_exec_fails))
                            (tick_world (tick (booted w_exec_fails) w_exec_fails)))).
Proof.
  split; [by_computation|]. split; [by_computation|].
  split; [by_computation|]. split; [by_computation|].
  split; [vm_compute; discriminate|].
  exists "Client Update Started", 0, None. in_trace.
Qed.

(** C10 as stated fails.  On [w_ledger_full] the ledger holds the record of an
    earlier failure; the write of the new record raises once the file is open,
    the exception is caught and the pass is a rejection, but the ledger file
    is left empty and the earlier failure is forgotten. *)
Lemma failed_save_truncates_ledger :
  files w_ledger_full !! FAILED_UPDATE_FILE = Some old_record
  ∧ stored_failure w_ledger_full = JString (sha256_hexdigest "x = (0")
  ∧ EvIO (OpWrite FAILED_UPDATE_FILE) (Some disk_full)
      ∈ tick_trace (tick (booted w_ledger_full) w_ledger_full)
  ∧ tick_outcome (tick (booted w_ledger_full) w_ledger_full) = Rejected
  ∧ files (tick_world (tick (booted w_ledger_full) w_ledger_full)) !! FAILED_UPDATE_FILE
    = Some ""
  ∧ files (tick_world (tick (booted w_ledger_full) w_ledger_full)) !! FAILED_UPDATE_FILE
    ≠ files w_ledger_full !! FAILED_UPDATE_FILE
  ∧ stored_failure (tick_world (tick (booted w_ledger_full) w_ledger_full)) = JNull.
Proof.
  split; [by_computation|]. split; [by_computation|]. split; [in_trace|].
  split; [by_computation|]. split; [by_computation|].
  split; [vm_compute; discriminate|]. by_computation.
Qed.

End Runs.

(** ** Concrete runs of the further properties *)

Module ExtraRuns.
Import Ref.

Ltac by_computation := vm_compute; reflexivity.
Ltac in_trace := refine (bool_decide_unpack _ _); vm_compute; exact I.

Lemma two_soft_failures : ∀ j, j < 2 → fails_softly (w_mail 2 false) "Client Update Started" j.
Proof.
  intros j Hj. destruct j as [|[|j]]; [| |lia];
    (exists (Fails timed_out); split; [reflexivity|discriminate]).
Qed.

Lemma send_email_stops_when_sent_witness :
  2 < 3
  ∧ (∀ j, j < 2 → fails_softly (w_mail 2 false) "Client Update Started" j)
  ∧ oracle (w_mail 2 false) (OpSmtp "Client Update Started" 2) = None
  ∧ (smtp_attempts (trace_of (send_email "Client Update Started" "body")
                      (w_mail 2 false))).*1 = [0; 1; 2]
  ∧ slept (trace_of (send_email "Client Update Started" "body") (w_mail 2 false)) = 10.
Proof.
  assert (H1 : 2 < 3) by lia.
  assert (H3 : oracle (w_mail 2 false) (OpSmtp "Client Update Started" 2) = None)
    by reflexivity.
  destruct (send_email_stops_when_sent "Client Update Started" "body" 3 5
              (w_mail 2 false) 2 H1 two_soft_failures H3) as (C1 & C2 & _).
  exact (conj H1 (conj two_soft_failures (conj H3 (conj C1 C2)))).
Defined.

Lemma one_soft_failure : ∀ j, j < 1 → fails_softly (w_mail 1 true) "Client Update Failed" j.
Proof.
  intros j Hj. destruct j as [|j]; [|lia].
  exists (Fails timed_out). split; [reflexivity|discriminate].
Qed.

Lemma send_email_gives_up_when_refused_witness :
  1 < 3
  ∧ (∀ j, j < 1 → fails_softly (w_mail 1 true) "Client Update Failed" j)
  ∧ oracle (w_mail 1 true) (OpSmtp "Client Update Failed" 1) = Some (Fails bad_login)
  ∧ exn_kind_of (fault_exn (Fails bad_login)) = SMTPAuthenticationError
  ∧ (smtp_attempts (trace_of (send_email "Client Update Failed" "body")
                      (w_mail 1 true))).*1 = [0; 1]
  ∧ slept (trace_of (send_email "Client Update Failed" "body") (w_mail 1 true)) = 5.
Proof.
  assert (H1 : 1 < 3) by lia.
  assert (H3 : oracle (w_mail 1 true) (OpSmtp "Client Update Failed" 1)
               = Some (Fails bad_login)) by reflexivity.
  assert (H4 : exn_kind_of (fault_exn (Fails bad_login)) = SMTPAuthenticationError)
    by reflexivity.
  destruct (send_email_gives_up_when_refused "Client Update Failed" "body" 3 5
              (w_mail 1 true) 1 _ H1 one_soft_failure H3 H4) as (C1 & C2 & _).
  exact (conj H1 (conj one_soft_failure (conj H3 (conj H4 (conj C1 C2))))).
Defined.

Lemma three_soft_failures : ∀ j, j < 3 → fails_softly (w_mail 3 false) "Client Update Failed" j.
Proof.
  intros j Hj. destruct j as [|[|[|j]]]; [| | |lia];
    (exists (Fails timed_out); split; [reflexivity|discriminate]).
Qed.

Lemma send_email_exhausts_retries_witness :
  (∀ j, j < 3 → fails_softly (w_mail 3 false) "Client Update Failed" j)
  ∧ (smtp_attempts (trace_of (send_email "Client Update Failed" "body")
                      (w_mail 3 false))).*1 = [0; 1; 2]
  ∧ slept (trace_of (send_email "Client Update Failed" "body") (w_mail 3 false)) = 10
  ∧ last (trace_of (send_email "Client Update Failed" "body") (w_mail 3 false))
    = Some (EvLog ERROR "All email attempts failed.").
Proof.
  destruct (send_email_exhausts_retries "Client Update Failed" "body" 3 5
              (w_mail 3 false) three_soft_failures) as (C1 & C2 & C3).
  exact (conj three_soft_failures (conj C1 (conj C2 C3))).
Defined.

Lemma failed_pull_skips_the_pass_witness :
  oracle w_offline OpPull = Some (Fails unreachable)
  ∧ tick_outcome (tick (booted w_offline) w_offline) = Errored unreachable
  ∧ tick_world (tick (booted w_offline) w_offline) = w_offline
  ∧ tick_trace (tick (booted w_offline) w_offline)
    = [EvIO OpPull (Some unreachable);
       EvLog ERROR "Git pull failed: unable to access the remote";
       EvSleep CHECK_INTERVAL].
Proof.
  assert (H1 : oracle w_offline OpPull = Some (Fails unreachable)) by reflexivity.
  destruct (failed_pull_skips_the_pass (booted w_offline) w_offline _ H1)
    as (C1 & _ & C2 & C3).
  exact (conj H1 (conj C1 (conj C2 C3))).
Defined.

Lemma missing_candidate_skips_the_pass_witness :
  oracle w_empty_remote OpPull = None
  ∧ remote w_empty_remote = None
  ∧ tick_outcome (tick (booted w_empty_remote) w_empty_remote) = Missing
  ∧ tick_state (tick (booted w_empty_remote) w_empty_remote) = booted w_empty_remote.
Proof.
  assert (H1 : oracle w_empty_remote OpPull = None) by reflexivity.
  assert (H2 : remote w_empty_remote = None) by reflexivity.
  destruct (missing_candidate_skips_the_pass (booted w_empty_remote) w_empty_remote H1 H2)
    as (C1 & C2 & _).
  exact (conj H1 (conj H2 (conj C1 C2))).
Defined.

Lemma known_failure_is_not_validated_witness :
  oracle w_known OpPull = None
  ∧ remote w_known = Some "x = (1"
  ∧ oracle w_known (OpRead new_file Bin) = None
  ∧ failed_checksum (booted w_known) = JString (sha256_hexdigest "x = (1")
  ∧ tick_outcome (tick (booted w_known) w_known) = Skipped
  ∧ ¬ validator_invoked new_file (tick_trace (tick (booted w_known) w_known))
  ∧ ¬ notified (tick_trace (tick (booted w_known) w_known)).
Proof.
  assert (H1 : oracle w_known OpPull = None) by reflexivity.
  assert (H2 : remote w_known = Some "x = (1") by reflexivity.
  assert (H3 : oracle w_known (OpRead new_file Bin) = None) by reflexivity.
  assert (H4 : failed_checksum (booted w_known) = JString (sha256_hexdigest "x = (1"))
    by by_computation.
  assert (H5 : tick_outcome (tick (booted w_known) w_known) = Skipped) by by_computation.
  destruct (known_failure_is_not_validated (booted w_known) w_known _ H1 H2 H3 H4)
    as (_ & C2 & C3 & _).
  exact (conj H1 (conj H2 (conj H3 (conj H4 (conj H5 (conj C2 C3)))))).
Defined.

Lemma skip_needs_the_loaded_failure_witness :
  tick_outcome (tick (booted w_known) w_known) = Skipped
  ∧ ∃ C, remote w_known = Some C
         ∧ failed_checksum (booted w_known) = JString (sha256_hexdigest C).
Proof.
  assert (H1 : tick_outcome (tick (booted w_known) w_known) = Skipped) by by_computation.
  destruct (skip_needs_the_loaded_failure (booted w_known) w_known H1)
    as (C & C1 & _ & C2 & _).
  split; [exact H1|]. exists C. exact (conj C1 C2).
Defined.

Lemma unparsable_candidate_is_never_installed_witness :
  remote w_bad = Some "x = (1"
  ∧ ast_parse "x = (1" = Some (Exn SyntaxError "unbalanced parenthesis")
  ∧ tick_outcome (tick (booted w_bad) w_bad) ≠ Restarted
  ∧ files (tick_world (tick (booted w_bad) w_bad)) !! current_file
    = files w_bad !! current_file.
Proof.
  assert (H1 : remote w_bad = Some "x = (1") by reflexivity.
  assert (H2 : ast_parse "x = (1" = Some (Exn SyntaxError "unbalanced parenthesis"))
    by by_computation.
  destruct (unparsable_candidate_is_never_installed (booted w_bad) w_bad _ _ H1 H2)
    as (C1 & C2 & _).
  exact (conj H1 (conj H2 (conj C1 C2))).
Defined.

Lemma backup_precedes_every_overwrite_witness :
  EvIO (OpCopy new_file current_file) (Some disk_full)
    ∈ tick_trace (tick (booted w_install_fails) w_install_fails)
  ∧ files w_install_fails !! current_file = Some "x = 1"
  ∧ files (tick_world (tick (booted w_install_fails) w_install_fails)) !! current_file
    = Some "x ="
  ∧ files (tick_world (tick (booted w_install_fails) w_install_fails)) !! backup
    = Some "x = 1".
Proof.
  assert (H1 : EvIO (OpCopy new_file current_file) (Some disk_full)
               ∈ tick_trace (tick (booted w_install_fails) w_install_fails)) by in_trace.
  assert (H2 : files w_install_fails !! current_file = Some "x = 1") by by_computation.
  assert (H3 : files (tick_world (tick (booted w_install_fails) w_install_fails))
                 !! current_file = Some "x =") by by_computation.
  exact (conj H1 (conj H2 (conj H3
    (backup_precedes_every_overwrite (booted w_install_fails) w_install_fails _ _ H1 H2)))).
Defined.

Lemma missing_running_file_is_replaced_witness :
  files w_deleted !! current_file = None
  ∧ remote w_deleted = Some "x = (2)"
  ∧ tick_outcome (tick (booted w_good) w_deleted) = Restarted
  ∧ files (tick_world (tick (booted w_good) w_deleted)) !! current_file = Some "x = (2)"
  ∧ files (tick_world (tick (booted w_good) w_deleted)) !! backup = None.
Proof.
  assert (H1 : files w_deleted !! current_file = None) by by_computation.
  assert (H2 : remote w_deleted = Some "x = (2)") by reflexivity.
  assert (H3 : tick_outcome (tick (booted w_good) w_deleted) = Restarted) by by_computation.
  destruct (missing_running_file_is_replaced (booted w_good) w_deleted _ H1 H2 H3)
    as (C1 & C2 & _).
  split; [exact H1|]. split; [exact H2|]. split; [exact H3|]. split; [exact C1|].
  rewrite C2. by_computation.
Defined.

Lemma failed_exec_leaves_the_update_on_disk_witness :
  EvIO (OpExec current_file) (Some exec_error)
    ∈ tick_trace (tick (booted w_exec_fails) w_exec_fails)
  ∧ remote w_exec_fails = Some "x = (2)"
  ∧ tick_outcome (tick (booted w_exec_fails) w_exec_fails) = Errored exec_error
  ∧ files (tick_world (tick (booted w_exec_fails) w_exec_fails)) !! current_file
    = Some "x = (2)"
  ∧ files (tick_world (tick (booted w_exec_fails) w_exec_fails)) !! backup
    = Some "x = 1".
Proof.
  assert (H1 : EvIO (OpExec current_file) (Some exec_error)
               ∈ tick_trace (tick (booted w_exec_fails) w_exec_fails)) by in_trace.
  assert (H2 : remote w_exec_fails = Some "x = (2)") by reflexivity.
  destruct (failed_exec_leaves_the_update_on_disk (booted w_exec_fails) w_exec_fails
              _ _ H1 H2) as (C1 & _ & C2 & C3).
  split; [exact H1|]. split; [exact H2|]. split; [exact C1|]. split; [exact C2|].
  apply C3. by_computation.
Defined.

Lemma rejection_in_order_witness :
  tick_outcome (tick (booted w_bad) w_bad) = Rejected
  ∧ tick_state (tick (booted w_bad) w_bad) = booted w_bad.
Proof.
  assert (H1 : tick_outcome (tick (booted w_bad) w_bad) = Rejected) by by_computation.
  destruct (rejection_in_order (booted w_bad) w_bad H1) as (C1 & _).
  exact (conj H1 C1).
Defined.

Lemma rejection_survives_a_restart_witness :
  (∀ o, oracle w_bad o = None)
  ∧ files w_bad !! current_file = Some "x = 1"
  ∧ remote w_bad = Some "x = (1"
  ∧ sha256_hexdigest "x = 1" ≠ sha256_hexdigest "x = (1"
  ∧ tick_outcome (tick (booted w_bad) w_bad) = Rejected
  ∧ tick_outcome (tick (booted (tick_world (tick (booted w_bad) w_bad)))
                    (tick_world (tick (booted w_bad) w_bad))) = Skipped.
Proof.
  assert (H1 : ∀ o, oracle w_bad o = None) by (intros o; reflexivity).
  assert (H2 : files w_bad !! current_file = Some "x = 1") by by_computation.
  assert (H3 : remote w_bad = Some "x = (1") by reflexivity.
  assert (H4 : sha256_hexdigest "x = 1" ≠ sha256_hexdigest "x = (1")
    by (vm_compute; discriminate).
  assert (H5 : tick_outcome (tick (booted w_bad) w_bad) = Rejected) by by_computation.
  destruct (rejection_survives_a_restart (H:=lib) RefFacts.digest_length
              RefFacts.ledger_roundtrip (booted w_bad) w_bad _ _ H1 H2 H3 H4 H5)
    as (_ & _ & C1 & _).
  exact (conj H1 (conj H2 (conj H3 (conj H4 (conj H5 C1))))).
Defined.

Lemma no_broker_never_connects : ∀ k, k < max_retries → ¬ connects h_no_broker k.
Proof. intros k _ [Hc _]. discriminate Hc. Qed.

Lemma boot_gives_up_without_connection_witness :
  host_oracle h_no_broker OpTlsSet = None
  ∧ (∀ k, k < max_retries → ¬ connects h_no_broker k)
  ∧ (boot h_no_broker w_good).1.1 = Exit 1
  ∧ connect_attempts (boot h_no_broker w_good).2 = [0; 1; 2; 3; 4]
  ∧ boot_slept (boot h_no_broker w_good).2 = 20.
Proof.
  assert (H1 : host_oracle h_no_broker OpTlsSet = None) by reflexivity.
  destruct (boot_gives_up_without_connection h_no_broker w_good H1 no_broker_never_connects)
    as (t & Hb & C1 & C2 & _).
  rewrite Hb. cbn [fst snd connect_attempts boot_slept].
  exact (conj H1 (conj no_broker_never_connects (conj eq_refl (conj C1 C2)))).
Defined.

Lemma slow_broker_fails_twice : ∀ j, j < 2 → ¬ connects h_slow_broker j.
Proof. intros j Hj [Hc _]. destruct j as [|[|j]]; [discriminate Hc..|lia]. Qed.

Lemma boot_connects_at_first_success_witness :
  host_oracle h_slow_broker OpTlsSet = None
  ∧ 2 < max_retries
  ∧ (∀ j, j < 2 → ¬ connects h_slow_broker j)
  ∧ connects h_slow_broker 2
  ∧ repo_present h_slow_broker = true
  ∧ host_oracle h_slow_broker OpOpenRepo = None
  ∧ (boot h_slow_broker w_good).1.1 = Ready (booted w_good)
  ∧ connect_attempts (boot h_slow_broker w_good).2 = [0; 1; 2]
  ∧ boot_slept (boot h_slow_broker w_good).2 = 10.
Proof.
  assert (H1 : host_oracle h_slow_broker OpTlsSet = None) by reflexivity.
  assert (H2 : 2 < max_retries) by (unfold max_retries; lia).
  assert (H4 : connects h_slow_broker 2) by (split; reflexivity).
  assert (H5 : repo_present h_slow_broker = true) by reflexivity.
  assert (H6 : host_oracle h_slow_broker OpOpenRepo = None) by reflexivity.
  destruct (boot_connects_at_first_success h_slow_broker w_good 2 H1 H2
              slow_broker_fails_twice H4 H5 H6) as (C1 & _ & C2 & C3).
  exact (conj H1 (conj H2 (conj slow_broker_fails_twice (conj H4 (conj H5 (conj H6
           (conj C1 (conj C2 C3)))))))).
Defined.

Lemma boot_ready_means_connected_witness :
  (boot h_fresh w_good).1.1 = Ready (booted (checkout w_good))
  ∧ (∃ k, k < max_retries ∧ connects h_fresh k)
  ∧ (boot h_fresh w_good).1.2 = checkout w_good.
Proof.
  assert (H1 : (boot h_fresh w_good).1.1 = Ready (booted (checkout w_good))).
  { unfold boot, clone_repo. cbn [h_fresh host_oracle repo_present].
    change (seq 0 max_retries) with (0 :: seq 1 4).
    rewrite (connect_loop_connects h_fresh max_retries 0 (seq 1 4)) by (split; reflexivity).
    by rewrite startup_run. }
  destruct (boot_ready_means_connected h_fresh w_good _ H1) as (_ & C1 & _ & _ & C2 & _).
  exact (conj H1 (conj C1 C2)).
Defined.


End ExtraRuns.
